(** * csv-file-comparator: character analyzer and table comparator

    A shallow embedding of [csv_comparator/analyzer.py] (class
    [CharacterAnalyzer]) and [csv_comparator/comparator.py] (class
    [CSVComparator]), with the properties of the character-level diff, the
    frame alignment and the cell-by-cell comparison proved on it.

    Python values are modelled as follows.
    - A [str] is the list of its code points ([pystr]); [len] is [length],
      [s[i]] is list lookup and [==] is equality of lists.
    - The expression [s[i] if i < len(s) else ''] is [s !! i : option N]:
      [None] is the empty string, [Some c] the one-character string.
    - A [dict] whose order is observable is an association list in insertion
      order; the constant table [special_chars] is a finite map.
    - An exception is [None] in the [option] monad.
    - Calls of [print] are left out. *)

From Stdlib Require Import ZArith NArith QArith.
From stdpp Require Import base option list sorting strings gmap.

Open Scope N_scope.
Open Scope nat_scope.

(** ** Python strings *)

(** A character is its code point, a string the list of its characters. *)
Abbreviation pychar := N (only parsing).
Abbreviation pystr := (list N) (only parsing).

(** [ord(c)] of a one-character string. *)
Definition ord (c : pychar) : N := c.

(** [c.isspace()] for a one-character string: CPython's
    [_PyUnicode_IsWhitespace], the code points of bidirectional type WS, B
    or S or of category Zs. *)
Definition isspace (c : pychar) : bool :=
  ((0x0009 <=? c) && (c <=? 0x000D))%N
  || ((0x001C <=? c) && (c <=? 0x0020))%N
  || (c =? 0x0085)%N || (c =? 0x00A0)%N || (c =? 0x1680)%N
  || ((0x2000 <=? c) && (c <=? 0x200A))%N
  || (c =? 0x2028)%N || (c =? 0x2029)%N || (c =? 0x202F)%N
  || (c =? 0x205F)%N || (c =? 0x3000)%N.

(** [s.lstrip()], [s.rstrip()] and [s.strip()] without argument. *)
Fixpoint lstrip (s : pystr) : pystr :=
  match s with
  | c :: s' => if isspace c then lstrip s' else s
  | [] => []
  end.

Definition rstrip (s : pystr) : pystr := reverse (lstrip (reverse s)).

Definition strip (s : pystr) : pystr := rstrip (lstrip s).

(** The code points of an ASCII literal. *)
Definition lit (s : string) : pystr :=
  Ascii.N_of_ascii <$> String.list_ascii_of_string s.
Global Arguments lit _%_string.

(** Upper-case hexadecimal digits of [n], least significant digit last. *)
Definition hex_digit (d : N) : pychar :=
  if (d <? 10)%N then (0x30 + d)%N else (0x41 + (d - 10))%N.

Fixpoint hex_digits (fuel : nat) (n : N) (acc : pystr) : pystr :=
  match fuel with
  | O => acc
  | S fuel' =>
      let acc' := hex_digit (n mod 16) :: acc in
      if (n / 16 =? 0)%N then acc' else hex_digits fuel' (n / 16) acc'
  end.

(** The format [f'{n:04X}']. *)
Definition format_04X (n : N) : pystr :=
  let ds := hex_digits (S (N.to_nat (N.log2 n))) n [] in
  replicate (4 - length ds) 0x30%N ++ ds.

(** ** What the interpreter supplies

    The Unicode database, [repr], case mapping and the codecs are tables of
    the Python runtime, not of this repository.  The analyzer is
    parameterised by them. *)

Inductive encoding := utf_8 | ascii | latin_1 | cp1252 | gbk.

Global Instance encoding_eq_dec : EqDecision encoding.
Proof. solve_decision. Defined.

Class Runtime := {
  (** [c.isprintable()] *)
  isprintable : pychar → bool;
  (** [unicodedata.name(c)]; [None] is [ValueError] *)
  unicodedata_name : pychar → option pystr;
  (** [unicodedata.category(c)] *)
  unicodedata_category : pychar → pystr;
  (** [repr(s)] *)
  repr : pystr → pystr;
  (** [s.lower()] *)
  lower : pystr → pystr;
  (** [s.encode(enc)]; [inr msg] is a [UnicodeEncodeError] with [str(e) = msg] *)
  encode : encoding → pystr → list N + pystr;
  (** [repr(b)] of a bytes object *)
  bytes_repr : list N → pystr;
}.

(** ** analyzer.py *)

(** [self.special_chars], the literal of [__init__], in source order. *)
Definition special_chars_items : list (pychar * pystr) :=
  [ (0x0020, [0x666E; 0x901A; 0x7A7A; 0x683C]);
    (0x00A0, [0x4E0D; 0x95F4; 0x65AD; 0x7A7A; 0x683C]);
    (0x2009, [0x7EC6; 0x7A7A; 0x683C]);
    (0x200A, [0x53D1; 0x4E1D; 0x7A7A; 0x683C]);
    (0x200B, [0x96F6; 0x5BBD; 0x7A7A; 0x683C]);
    (0x200C, [0x96F6; 0x5BBD; 0x975E; 0x8FDE; 0x5B57; 0x7B26]);
    (0x200D, [0x96F6; 0x5BBD; 0x8FDE; 0x5B57; 0x7B26]);
    (0x2028, [0x884C; 0x5206; 0x9694; 0x7B26]);
    (0x2029, [0x6BB5; 0x5206; 0x9694; 0x7B26]);
    (0x202F, [0x7A84; 0x4E0D; 0x95F4; 0x65AD; 0x7A7A; 0x683C]);
    (0x205F, [0x4E2D; 0x7B49; 0x6570; 0x5B66; 0x7A7A; 0x683C]);
    (0x3000, [0x4E2D; 0x6587; 0x7A7A; 0x683C]);
    (0x0009, [0x5236; 0x8868; 0x7B26]);
    (0x000A, [0x6362; 0x884C; 0x7B26]);
    (0x000D, [0x56DE; 0x8F66; 0x7B26]);
    (0x000C, [0x6362; 0x9875; 0x7B26]);
    (0x000B, [0x5782; 0x76F4; 0x5236; 0x8868; 0x7B26]);
    (0x2010, [0x8FDE; 0x5B57; 0x7B26]);
    (0x2011, [0x4E0D; 0x95F4; 0x65AD; 0x8FDE; 0x5B57; 0x7B26]);
    (0x2012, [0x6570; 0x5B57; 0x77ED; 0x6A2A; 0x7EBF]);
    (0x2013, [0x77ED; 0x7834; 0x6298; 0x53F7]);
    (0x2014, [0x957F; 0x7834; 0x6298; 0x53F7]);
    (0x2015, [0x6C34; 0x5E73; 0x7EBF]);
    (0x2018, [0x5DE6; 0x5355; 0x5F15; 0x53F7]);
    (0x2019, [0x53F3; 0x5355; 0x5F15; 0x53F7]);
    (0x201A, [0x4E0B; 0x5355; 0x5F15; 0x53F7]);
    (0x201B, [0x4E0A; 0x5355; 0x5F15; 0x53F7]);
    (0x201C, [0x5DE6; 0x53CC; 0x5F15; 0x53F7]);
    (0x201D, [0x53F3; 0x53CC; 0x5F15; 0x53F7]);
    (0x201E, [0x4E0B; 0x53CC; 0x5F15; 0x53F7]);
    (0x201F, [0x4E0A; 0x53CC; 0x5F15; 0x53F7]) ]%N.

Definition special_chars : gmap N pystr := list_to_map special_chars_items.

(** [char in self.special_chars] *)
Definition in_special_chars (c : pychar) : bool :=
  bool_decide (is_Some (special_chars !! c)).

(** The dictionary built by [get_char_info]. *)
Record CharInfo := {
  ci_char : pychar;
  ci_ord : N;
  ci_hex : pystr;
  ci_repr : pystr;
  ci_name : pystr;
  ci_unicode_name : pystr;
  ci_category : pystr;
  ci_is_printable : bool;
  ci_is_space : bool;
  ci_is_control : bool;
  ci_is_invisible : bool;
}.

(** [get_char_info] returns the empty dict on the empty string. *)
Inductive info_dict :=
  | EmptyDict
  | Info (i : CharInfo).

(** The kinds returned by [_classify_difference]. *)
Inductive diff_type :=
  | insertion
  | deletion
  | whitespace_substitution
  | whitespace_difference
  | unicode_difference
  | character_substitution.

Global Instance diff_type_eq_dec : EqDecision diff_type.
Proof. solve_decision. Defined.

(** One entry of the list built by [find_string_differences]. *)
Record CharDiff := {
  position : nat;
  char1 : option pychar;
  char2 : option pychar;
  char1_info : option info_dict;
  char2_info : option info_dict;
  type : diff_type;
}.

(** The per-encoding entry of [_analyze_encoding]. *)
Inductive encoding_entry :=
  | EncSuccess (byte_length : nat) (bytes_repr : pystr)
  | EncFailure (error : pystr).

(** One entry of the list built by [_find_special_chars]. *)
Record SpecialChar := {
  sc_position : nat;
  sc_char_info : info_dict;
}.

(** The dictionary built by [analyze_difference]. *)
Record Analysis := {
  length_diff : Z;
  are_equal : bool;
  str1_length : nat;
  str2_length : nat;
  differences : list CharDiff;
  diff_count : nat;
  diff_positions : list nat;
  diff_types : list (diff_type * nat);
  str1_special_chars : list SpecialChar;
  str2_special_chars : list SpecialChar;
  str1_encoding_info : list (encoding * encoding_entry);
  str2_encoding_info : list (encoding * encoding_entry);
}.

(** [d[k] = v] and [d.get(k)] on a dict kept in insertion order: assigning
    to a key already present keeps its place. *)
Fixpoint dict_set {K V} `{EqDecision K} (k : K) (v : V) (d : list (K * V))
    : list (K * V) :=
  match d with
  | [] => [(k, v)]
  | (k', v') :: d' =>
      if decide (k = k') then (k, v) :: d' else (k', v') :: dict_set k v d'
  end.

Fixpoint dict_get {K V} `{EqDecision K} (k : K) (d : list (K * V)) : option V :=
  match d with
  | [] => None
  | (k', v') :: d' => if decide (k = k') then Some v' else dict_get k d'
  end.

(** [_classify_difference]: [not char1] holds exactly for the empty string. *)
Definition _classify_difference (char1 char2 : option pychar) : diff_type :=
  match char1, char2 with
  | None, _ => insertion
  | Some _, None => deletion
  | Some c1, Some c2 =>
      if isspace c1 && isspace c2 then whitespace_substitution
      else if isspace c1 || isspace c2 then whitespace_difference
      else if (127 <? ord c1)%N || (127 <? ord c2)%N then unicode_difference
      else character_substitution
  end.

Section Analyzer.
Context {RT : Runtime}.

(** [get_char_info]: when [unicodedata.name] raises, the handler sets both
    [unicode_name] and [category] to ['UNKNOWN']. *)
Definition get_char_info (char : option pychar) : info_dict :=
  match char with
  | None => EmptyDict
  | Some c =>
      let '(uname, cat) :=
        match unicodedata_name c with
        | Some n => (n, unicodedata_category c)
        | None => (lit "UNKNOWN", lit "UNKNOWN")
        end in
      Info {|
        ci_char := c;
        ci_ord := ord c;
        ci_hex := lit "U+" ++ format_04X (ord c);
        ci_repr := repr [c];
        ci_name := default [] (special_chars !! c);
        ci_unicode_name := uname;
        ci_category := cat;
        ci_is_printable := isprintable c;
        ci_is_space := isspace c;
        ci_is_control :=
          match unicodedata_category c with
          | 0x43%N :: _ => true
          | _ => false
          end;
        ci_is_invisible := negb (isprintable c) || in_special_chars c;
      |}
  end.

(** The body of the loop of [find_string_differences] at index [i]. *)
Definition diff_step (str1 str2 : pystr) (differences : list CharDiff)
    (i : nat) : list CharDiff :=
  let char1 := str1 !! i in
  let char2 := str2 !! i in
  if decide (char1 ≠ char2) then
    differences ++ [ {|
      position := i;
      char1 := char1;
      char2 := char2;
      char1_info := if char1 is Some _ then Some (get_char_info char1) else None;
      char2_info := if char2 is Some _ then Some (get_char_info char2) else None;
      type := _classify_difference char1 char2;
    |} ]
  else differences.

Definition find_string_differences (str1 str2 : pystr) : list CharDiff :=
  let max_len := max (length str1) (length str2) in
  foldl (diff_step str1 str2) [] (seq 0 max_len).

(** [_find_special_chars] *)
Definition _find_special_chars (text : pystr) : list SpecialChar :=
  foldl (λ special_chars '(i, char),
           if in_special_chars char || negb (isprintable char) then
             special_chars ++ [ {| sc_position := i;
                                   sc_char_info := get_char_info (Some char) |} ]
           else special_chars)
        [] (imap pair text).

(** [_analyze_encoding]; each key is assigned once, in the order of the
    list [encodings]. *)
Definition _analyze_encoding (text : pystr)
    : list (encoding * encoding_entry) :=
  foldl (λ encoding_info enc,
           dict_set enc
             match encode enc text with
             | inl encoded => EncSuccess (length encoded) (bytes_repr encoded)
             | inr e => EncFailure e
             end encoding_info)
        [] [utf_8; ascii; latin_1; cp1252; gbk].

(** The tally of kinds in [analyze_difference]. *)
Definition count_types (differences : list CharDiff) : list (diff_type * nat) :=
  foldl (λ diff_types diff,
           let diff_type := type diff in
           let diff_types :=
             if dict_get diff_type diff_types is Some _ then diff_types
             else dict_set diff_type 0 diff_types in
           dict_set diff_type (default 0 (dict_get diff_type diff_types) + 1)
                    diff_types)
        [] differences.

Definition analyze_difference (str1 str2 : pystr) : Analysis :=
  let differences := find_string_differences str1 str2 in
  {| length_diff := Z.of_nat (length str2) - Z.of_nat (length str1);
     are_equal := bool_decide (str1 = str2);
     str1_length := length str1;
     str2_length := length str2;
     differences := differences;
     diff_count := length differences;
     diff_positions := position <$> differences;
     diff_types := count_types differences;
     str1_special_chars := _find_special_chars str1;
     str2_special_chars := _find_special_chars str2;
     str1_encoding_info := _analyze_encoding str1;
     str2_encoding_info := _analyze_encoding str2;
  |}.

End Analyzer.

(** ** pandas frames

    A [DataFrame] carries its column labels, its row labels and its cells
    row by row.  A cell holds a string or the missing value [NaN] that
    [reindex] puts under a label the frame does not have. *)

Inductive cell :=
  | CStr (s : pystr)
  | CNaN.

Global Instance cell_eq_dec : EqDecision cell.
Proof. solve_decision. Defined.

Record DataFrame := {
  columns : list pystr;
  index : list nat;
  values : list (list cell);
}.

(** The representation invariant of a frame: one row of cells per row
    label, one cell per column label. *)
Definition frame_ok (df : DataFrame) : Prop :=
  length (values df) = length (index df)
  ∧ Forall (λ r, length r = length (columns df)) (values df).

(** What [load_csv] hands over is such a frame with distinct column
    labels: [read_csv] renames a repeated header name. *)
Definition grid_ok (df : DataFrame) : Prop :=
  frame_ok df ∧ NoDup (columns df).

(** [len(df)] and [df.shape] *)
Definition len (df : DataFrame) : nat := length (index df).
Definition shape (df : DataFrame) : nat * nat :=
  (length (index df), length (columns df)).

(** [df.iloc[row, col_idx]]; [None] is [IndexError]. *)
Definition iloc (df : DataFrame) (row col_idx : nat) : option cell :=
  r ← values df !! row; r !! col_idx.

(** [str(x)] of a cell *)
Definition str (x : cell) : pystr :=
  match x with
  | CStr s => s
  | CNaN => lit "nan"
  end.

(** Position of a label among the column labels. *)
Definition get_loc (col : pystr) (cols : list pystr) : option nat :=
  fst <$> list_find (λ c, c = col) cols.

(** The cell of the row [r] under the label [c], for a row laid out along
    the labels [cols]. *)
Definition row_get (cols : list pystr) (r : list cell) (c : pystr)
    : option cell :=
  i ← get_loc c cols; r !! i.

(** [df[col] = v] for a label [col] that is not a column of [df]: the new
    column goes last and holds [v] in every row. *)
Definition add_column (df : DataFrame) (col : pystr) (v : cell) : DataFrame :=
  {| columns := columns df ++ [col];
     index := index df;
     values := (λ r, r ++ [v]) <$> values df |}.

(** [df.reindex(columns=cols)]: a frame equal in labels is returned as it
    is; otherwise duplicate labels in [df] raise [ValueError], and a label
    [df] does not have gets [NaN]. *)
Definition reindex (df : DataFrame) (cols : list pystr) : option DataFrame :=
  if decide (columns df = cols) then Some df
  else if decide (NoDup (columns df)) then
    Some {| columns := cols;
            index := index df;
            values :=
              (λ r, (λ c, default CNaN (row_get (columns df) r c)) <$> cols)
                <$> values df |}
  else None.

(** [pd.DataFrame(v, index=idx, columns=cols)] for a scalar [v] *)
Definition full_frame (v : cell) (idx : list nat) (cols : list pystr)
    : DataFrame :=
  {| columns := cols;
     index := idx;
     values := replicate (length idx) (replicate (length cols) v) |}.

(** [pd.concat([a, b])] for two frames with the same column labels, which
    is how [normalize_dataframes] calls it ([b] is built with
    [columns=a.columns]). *)
Definition concat (a b : DataFrame) : DataFrame :=
  {| columns := columns a;
     index := index a ++ index b;
     values := values a ++ values b |}.

(** [df.reset_index(drop=True)] *)
Definition reset_index (df : DataFrame) : DataFrame :=
  {| columns := columns df;
     index := seq 0 (length (index df));
     values := values df |}.

(** ** Ordering of strings and [sorted] *)

(** [s <= t] on strings: lexicographic on code points. *)
Fixpoint str_leb (s t : pystr) : bool :=
  match s, t with
  | [], _ => true
  | _ :: _, [] => false
  | a :: s', b :: t' =>
      if (a <? b)%N then true
      else if (a =? b)%N then str_leb s' t'
      else false
  end.

Definition str_le (s t : pystr) : Prop := str_leb s t = true.
Definition str_lt (s t : pystr) : Prop := str_le s t ∧ s ≠ t.

Global Instance str_le_dec : RelDecision str_le.
Proof. intros s t. unfold str_le. apply _. Defined.

(** [sorted(xs)] *)
Definition sorted (xs : list pystr) : list pystr := merge_sort str_le xs.

(** Iterating over a [set] visits every element once, in an order the
    language leaves open. *)
Class SetOrder := {
  set_iter : gset pystr → list pystr;
  set_iter_perm : ∀ X, set_iter X ≡ₚ elements X;
}.

(** A fold that stops at the first exception. *)
Fixpoint foldlM {A B} (f : B → A → option B) (b : B) (l : list A) : option B :=
  match l with
  | [] => Some b
  | x :: l' => b' ← f b x; foldlM f b' l'
  end.

(** [a / b] on integers; [None] is [ZeroDivisionError].  The quotient is
    kept exact: the float Python returns is its nearest double. *)
Definition truediv (a b : Z) : option Q :=
  if decide (b = 0%Z) then None else Some (inject_Z a / inject_Z b)%Q.

(** ** comparator.py *)

Record CellDifference := {
  row : nat;
  col : nat;
  col_name : pystr;
  original : pystr;
  target : pystr;
  original_repr : pystr;
  target_repr : pystr;
  char_diff_positions : list nat;
  unicode_analysis : option Analysis;
}.

Record FileInfo := {
  fi_path : pystr;
  fi_size : N;
  fi_rows : nat;
  fi_columns : nat;
  fi_encoding : pystr;
}.

Record Summary := {
  accuracy : Q;
  summary_total_cells : Z;
  summary_identical_cells : Z;
  summary_different_cells : Z;
  difference_rate : Q;
}.

Record ComparisonResult := {
  similarity : Q;
  total_cells : Z;
  different_cells : Z;
  identical_cells : Z;
  cell_differences : list CellDifference;
  base_file_info : FileInfo;
  target_file_info : FileInfo;
  summary : Summary;
}.

(** The fields of [self]. *)
Record CSVComparator := {
  ignore_case : bool;
  ignore_whitespace : bool;
}.

(** The files the comparator reads.  [load_csv] and [detect_encoding] go
    to the disk, [chardet] and [pd.read_csv]; [None] is the exception they
    raise. *)
Class Files := {
  load_csv : pystr → option DataFrame;
  detect_encoding : pystr → option pystr;
  stat_size : pystr → option N;
}.

Section Comparator.
Context {RT : Runtime} {SO : SetOrder} {FS : Files}.

(** The loop of [normalize_dataframes] that adds the missing columns. *)
Definition add_missing (dfs : DataFrame * DataFrame) (col : pystr)
    : DataFrame * DataFrame :=
  let df1 := dfs.1 in
  let df2 := dfs.2 in
  let df1 :=
    if decide (col ∉ columns df1) then add_column df1 col (CStr []) else df1 in
  let df2 :=
    if decide (col ∉ columns df2) then add_column df2 col (CStr []) else df2 in
  (df1, df2).

(** The padding of [normalize_dataframes] to [max_rows] rows. *)
Definition pad_rows (df : DataFrame) (max_rows : nat) : DataFrame :=
  if decide (len df < max_rows) then
    let empty_rows :=
      full_frame (CStr []) (seq (len df) (max_rows - len df)) (columns df) in
    concat df empty_rows
  else df.

(** [normalize_dataframes].  The source adds the missing columns to the
    frames it is given, in place; [compare_files] passes frames it has
    just loaded and goes on with the returned ones only, so the frames are
    threaded as values here. *)
Definition normalize_dataframes (df1 df2 : DataFrame)
    : option (DataFrame * DataFrame) :=
  let all_columns : gset pystr :=
    list_to_set (columns df1) ∪ list_to_set (columns df2) in
  let '(df1, df2) := foldl add_missing (df1, df2) (set_iter all_columns) in
  df1 ← reindex df1 (sorted (set_iter all_columns));
  df2 ← reindex df2 (sorted (set_iter all_columns));
  let max_rows := max (len df1) (len df2) in
  let df1 := pad_rows df1 max_rows in
  let df2 := pad_rows df2 max_rows in
  Some (reset_index df1, reset_index df2).

Definition analyze_character_difference (str1 str2 : pystr) : Analysis :=
  analyze_difference str1 str2.

(** The preprocessing at the head of [compare_cells]. *)
Definition preprocess (self : CSVComparator) (val : pystr) : pystr :=
  let val := if ignore_whitespace self then strip val else val in
  if ignore_case self then lower val else val.

(** [compare_cells]; the empty dict of the equal case is [None]. *)
Definition compare_cells (self : CSVComparator) (val1 val2 : pystr)
    : bool * option Analysis :=
  let val1 := preprocess self val1 in
  let val2 := preprocess self val2 in
  if decide (val1 = val2) then (true, None)
  else (false, Some (analyze_character_difference val1 val2)).

(** The body of the inner loop of [compare_files]. *)
Definition compare_step (self : CSVComparator) (df1 df2 : DataFrame)
    (row : nat) (st : list CellDifference * Z) (c : nat * pystr)
    : option (list CellDifference * Z) :=
  let '(differences, different_cells) := st in
  let '(col_idx, col_name) := c in
  x1 ← iloc df1 row col_idx;
  x2 ← iloc df2 row col_idx;
  let val1 := str x1 in
  let val2 := str x2 in
  let '(is_same, analysis) := compare_cells self val1 val2 in
  if negb is_same then
    let different_cells := (different_cells + 1)%Z in
    let difference := {|
      row := row;
      col := col_idx;
      col_name := col_name;
      original := val1;
      target := val2;
      original_repr := repr val1;
      target_repr := repr val2;
      char_diff_positions := from_option diff_positions [] analysis;
      unicode_analysis := analysis;
    |} in
    Some (differences ++ [difference], different_cells)
  else Some (differences, different_cells).

(** The two nested loops of [compare_files]. *)
Definition compare_loop (self : CSVComparator) (df1 df2 : DataFrame)
    : option (list CellDifference * Z) :=
  foldlM (λ st row,
            foldlM (compare_step self df1 df2 row) st (imap pair (columns df1)))
         ([], 0%Z) (seq 0 (shape df1).1).

Definition file_info (path : pystr) (df : DataFrame) : option FileInfo :=
  size ← stat_size path;
  enc ← detect_encoding path;
  Some {| fi_path := path; fi_size := size; fi_rows := len df;
          fi_columns := length (columns df); fi_encoding := enc |}.

Definition compare_files (self : CSVComparator) (base_file target_file : pystr)
    : option ComparisonResult :=
  df1 ← load_csv base_file;
  df2 ← load_csv target_file;
  '(df1, df2) ← normalize_dataframes df1 df2;
  let total_cells := (Z.of_nat (shape df1).1 * Z.of_nat (shape df1).2)%Z in
  '(differences, different_cells) ← compare_loop self df1 df2;
  let identical_cells := (total_cells - different_cells)%Z in
  similarity ←
    (if (0 <? total_cells)%Z then truediv identical_cells total_cells
     else Some 0%Q);
  base_info ← file_info base_file df1;
  target_info ← file_info target_file df2;
  difference_rate ←
    (if (0 <? total_cells)%Z then truediv different_cells total_cells
     else Some 0%Q);
  Some {| similarity := similarity;
          total_cells := total_cells;
          different_cells := different_cells;
          identical_cells := identical_cells;
          cell_differences := differences;
          base_file_info := base_info;
          target_file_info := target_info;
          summary := {| accuracy := similarity;
                        summary_total_cells := total_cells;
                        summary_identical_cells := identical_cells;
                        summary_different_cells := different_cells;
                        difference_rate := difference_rate |} |}.

(** [batch_compare]: a comparison that raises leaves [None] under its
    target. *)
Definition batch_compare (self : CSVComparator) (base_file : pystr)
    (target_files : list pystr)
    : list (pystr * option ComparisonResult) :=
  foldl (λ results target_file,
           match compare_files self base_file target_file with
           | Some result => dict_set target_file (Some result) results
           | None => dict_set target_file None results
           end)
        [] target_files.

End Comparator.

(** * Definitions used to state the properties *)

(** ** The difference kind, as the specification words it *)

Definition absent (c : option pychar) : bool := bool_decide (c = None).
Definition is_whitespace (c : option pychar) : bool := from_option isspace false c.
Definition non_ascii (c : option pychar) : bool :=
  from_option (λ x, (127 <? x)%N) false c.

(** The kind decided in the stated priority. *)
Definition kind_by_priority (a b : option pychar) : diff_type :=
  if absent a then insertion
  else if absent b then deletion
  else if is_whitespace a && is_whitespace b then whitespace_substitution
  else if xorb (is_whitespace a) (is_whitespace b) then whitespace_difference
  else if non_ascii a || non_ascii b then unicode_difference
  else character_substitution.

(** The record the positional diff holds for index [i]. *)
Definition diff_at {RT : Runtime} (a b : pystr) (i : nat) : CharDiff :=
  {| position := i;
     char1 := a !! i;
     char2 := b !! i;
     char1_info := (λ _, get_char_info (a !! i)) <$> a !! i;
     char2_info := (λ _, get_char_info (b !! i)) <$> b !! i;
     type := _classify_difference (a !! i) (b !! i) |}.

(** The indices at which the two strings disagree. *)
Definition mismatches (a b : pystr) : list nat :=
  filter (λ i, a !! i ≠ b !! i) (seq 0 (max (length a) (length b))).

(** Number of differences of kind [k]. *)
Definition count_kind (k : diff_type) (ds : list CharDiff) : nat :=
  length (filter (λ d, type d = k) ds).

(** ** The curated table, as the specification lists it *)

(** The code points [lo], [lo + 1], ..., [lo + n - 1]. *)
Definition code_range (lo : N) (n : nat) : list N :=
  (λ i, lo + N.of_nat i)%N <$> seq 0 n.

(** U+00A0, U+2000 to U+200D, U+2028, U+2029, U+202F, U+205F, U+3000, tab,
    newline, carriage return, form feed, vertical tab, U+2010 to U+2015 and
    U+2018 to U+201F. *)
Definition listed_code_points : list N :=
  [0x00A0%N] ++ code_range 0x2000 14
  ++ [0x2028; 0x2029; 0x202F; 0x205F; 0x3000]%N
  ++ [0x09; 0x0A; 0x0D; 0x0C; 0x0B]%N
  ++ code_range 0x2010 6 ++ code_range 0x2018 8.

(** The listed code points with U+2009 to U+200D in place of U+2000 to
    U+200D. *)
Definition held_code_points : list N :=
  [0x00A0%N] ++ code_range 0x2009 5
  ++ [0x2028; 0x2029; 0x202F; 0x205F; 0x3000]%N
  ++ [0x09; 0x0A; 0x0D; 0x0C; 0x0B]%N
  ++ code_range 0x2010 6 ++ code_range 0x2018 8.

(** ** Frames read by row position and column label *)

(** [df[c].iloc[r]] *)
Definition cell_at (df : DataFrame) (r : nat) (c : pystr) : option cell :=
  cells ← values df !! r; row_get (columns df) cells c.

(** [n1] and [n2] are the frames [df1] and [df2] brought to one shape:
    the columns are the union of both column sets in ascending order, the
    rows number [max (len df1) (len df2)], a cell the input has is kept
    and every other cell is the empty string. *)
Definition aligned_side (df n : DataFrame) (rows : nat) : Prop :=
  shape n = (rows, length (columns n))
  ∧ index n = seq 0 rows
  ∧ frame_ok n
  ∧ ∀ r c, r < rows → c ∈ columns n →
      cell_at n r c
      = if decide (r < len df ∧ c ∈ columns df) then cell_at df r c
        else Some (CStr []).

Definition aligned (df1 df2 n1 n2 : DataFrame) : Prop :=
  columns n2 = columns n1
  ∧ StronglySorted str_lt (columns n1)
  ∧ (∀ c, c ∈ columns n1 ↔ c ∈ columns df1 ∨ c ∈ columns df2)
  ∧ aligned_side df1 n1 (max (len df1) (len df2))
  ∧ aligned_side df2 n2 (max (len df1) (len df2)).

(** One side of the loop that adds the missing columns. *)
Definition add_missing1 (df : DataFrame) (col : pystr) : DataFrame :=
  if decide (col ∉ columns df) then add_column df col (CStr []) else df.

(** A frame with the columns [new] of empty strings added at the right. *)
Definition extend (df : DataFrame) (new : list pystr) : DataFrame :=
  {| columns := columns df ++ new;
     index := index df;
     values := (λ r, r ++ replicate (length new) (CStr [])) <$> values df |}.

(** ** The comparison, cell by cell *)

(** The record [compare_files] appends for the cells [x1] and [x2] at
    [row] and column [c], if the two differ after preprocessing. *)
Definition record_of {RT : Runtime} (self : CSVComparator) (row : nat)
    (c : nat * pystr) (x1 x2 : cell) : list CellDifference :=
  let v1 := preprocess self (str x1) in
  let v2 := preprocess self (str x2) in
  if decide (v1 = v2) then []
  else [ {| row := row;
            col := c.1;
            col_name := c.2;
            original := str x1;
            target := str x2;
            original_repr := repr (str x1);
            target_repr := repr (str x2);
            char_diff_positions := diff_positions (analyze_difference v1 v2);
            unicode_analysis := Some (analyze_difference v1 v2) |} ].

(** The records of one cell position, one row, and the whole grid. *)
Definition cell_records {RT : Runtime} (self : CSVComparator)
    (df1 df2 : DataFrame) (row : nat) (c : nat * pystr)
    : list CellDifference :=
  match iloc df1 row c.1, iloc df2 row c.1 with
  | Some x1, Some x2 => record_of self row c x1 x2
  | _, _ => []
  end.

Definition row_records {RT : Runtime} (self : CSVComparator)
    (df1 df2 : DataFrame) (row : nat) : list CellDifference :=
  imap pair (columns df1) ≫= cell_records self df1 df2 row.

Definition grid_records {RT : Runtime} (self : CSVComparator)
    (df1 df2 : DataFrame) : list CellDifference :=
  seq 0 (len df1) ≫= row_records self df1 df2.

(** ** Counting the cells that differ *)

(** The positions of a grid of [rows] rows and [cols] columns, read row by
    row. *)
Definition grid_positions (rows cols : nat) : list (nat * nat) :=
  r ← seq 0 rows; pair r <$> seq 0 cols.

(** The cells the two frames hold at the position [p] differ after
    preprocessing. *)
Definition differs {RT : Runtime} (self : CSVComparator)
    (df1 df2 : DataFrame) (p : nat * nat) : Prop :=
  match iloc df1 p.1 p.2, iloc df2 p.1 p.2 with
  | Some x1, Some x2 => preprocess self (str x1) ≠ preprocess self (str x2)
  | _, _ => False
  end.

Global Instance differs_dec {RT : Runtime} self df1 df2 p :
  Decision (differs self df1 df2 p).
Proof.
  unfold differs. destruct (iloc df1 p.1 p.2), (iloc df2 p.1 p.2); apply _.
Defined.

(** A file [load_csv] reads into [df] and whose size and encoding can be
    asked for. *)
Definition readable {FS : Files} (path : pystr) (df : DataFrame) : Prop :=
  load_csv path = Some df ∧ grid_ok df
  ∧ is_Some (stat_size path) ∧ is_Some (detect_encoding path).

(** The loop of [batch_compare], from any dict already built. *)
Definition batch_step {RT : Runtime} {SO : SetOrder} {FS : Files}
    (self : CSVComparator) (base_file : pystr)
    (results : list (pystr * option ComparisonResult)) (target_file : pystr)
    : list (pystr * option ComparisonResult) :=
  dict_set target_file (compare_files self base_file target_file) results.

(** The keys of a dict filled by assigning the keys [l] in turn. *)
Definition first_occurrences {K} `{EqDecision K} (l : list K) : list K :=
  foldl (λ keys k, if decide (k ∈ keys) then keys else keys ++ [k]) [] l.

(** ** Sample instances for the concrete examples *)

(** Walking a set in the order of [elements]. *)
Definition elements_order : SetOrder :=
  {| set_iter := elements; set_iter_perm := λ X, reflexivity _ |}.

(** A runtime that knows ASCII only. *)
Definition ascii_runtime : Runtime :=
  {| isprintable := λ c, (0x20 <=? c)%N && (c <? 0x7F)%N;
     unicodedata_name := λ _, None;
     unicodedata_category := λ c, if (c <? 0x20)%N then lit "Cc" else lit "Cn";
     repr := λ s, [0x27%N] ++ s ++ [0x27%N];
     lower := fmap (λ c, if (0x41 <=? c)%N && (c <=? 0x5A)%N
                         then (c + 32)%N else c);
     encode := λ _ s, inl s;
     bytes_repr := λ b, b |}.

(** Two frames with the columns [B, A] and [B, C], of shapes 2 by 2 and
    1 by 2. *)
Definition sample_base : DataFrame :=
  {| columns := [lit "B"; lit "A"];
     index := [0; 1];
     values := [ [CStr (lit "foo "); CStr (lit " x")];
                 [CStr (lit "b1"); CStr (lit "a1")] ] |}.

Definition sample_target : DataFrame :=
  {| columns := [lit "B"; lit "C"];
     index := [0];
     values := [ [CStr (lit "foo"); CStr (lit "c0")] ] |}.

(** A frame with a header and no row. *)
Definition sample_empty : DataFrame :=
  {| columns := [lit "v"]; index := []; values := [] |}.

(** A directory with three readable files. *)
Definition sample_files : Files :=
  {| load_csv := λ path,
       if decide (path = lit "base.csv") then Some sample_base
       else if decide (path = lit "target.csv") then Some sample_target
       else if decide (path = lit "empty.csv") then Some sample_empty
       else None;
     detect_encoding := λ path, Some (lit "utf-8");
     stat_size := λ path, Some 0%N |}.

(** A comparator that trims and keeps the case. *)
Definition trimming : CSVComparator :=
  {| ignore_case := false; ignore_whitespace := true |}.

(** * The rest of the analyzer *)

(** [str(n)] for a natural number: its decimal digits. *)
Fixpoint dec_digits (fuel : nat) (n : N) (acc : pystr) : pystr :=
  match fuel with
  | O => acc
  | S fuel' =>
      let acc' := (0x30 + n mod 10)%N :: acc in
      if (n / 10 =? 0)%N then acc' else dec_digits fuel' (n / 10) acc'
  end.

Definition str_of_N (n : N) : pystr :=
  dec_digits (S (N.to_nat (N.log2 n))) n [].

Definition str_of_nat (n : nat) : pystr := str_of_N (N.of_nat n).

(** [a or b] on strings: [a] unless it is empty. *)
Definition str_or (a b : pystr) : pystr :=
  match a with
  | [] => b
  | _ :: _ => a
  end.

(** The code points of a literal given by its UTF-8 bytes. *)
Fixpoint utf8_decode (bs : list N) : pystr :=
  match bs with
  | [] => []
  | b0 :: bs1 =>
      if (b0 <? 0x80)%N then b0 :: utf8_decode bs1
      else
        match bs1 with
        | [] => []
        | b1 :: bs2 =>
            if (b0 <? 0xE0)%N then
              ((b0 - 0xC0) * 64 + (b1 - 0x80))%N :: utf8_decode bs2
            else
              match bs2 with
              | [] => []
              | b2 :: bs3 =>
                  if (b0 <? 0xF0)%N then
                    ((b0 - 0xE0) * 4096 + (b1 - 0x80) * 64 + (b2 - 0x80))%N
                      :: utf8_decode bs3
                  else
                    match bs3 with
                    | [] => []
                    | b3 :: bs4 =>
                        ((b0 - 0xF0) * 262144 + (b1 - 0x80) * 4096
                         + (b2 - 0x80) * 64 + (b3 - 0x80))%N
                          :: utf8_decode bs4
                    end
              end
        end
  end.

Definition u8 (s : string) : pystr :=
  utf8_decode (Ascii.N_of_ascii <$> String.list_ascii_of_string s).
Global Arguments u8 _%_string.

Section AnalyzerRest.
Context {RT : Runtime}.

(** The text shown for the character [char] at index [i] in
    [generate_char_map]; reading a key of the empty dict raises
    [KeyError]. *)
Definition char_display (i : nat) (char : pychar) : option pystr :=
  match get_char_info (Some char) with
  | EmptyDict => None
  | Info info =>
      if ci_is_invisible info then
        Some (lit "["
              ++ str_or (ci_name info)
                   (str_or (ci_unicode_name info)
                      (lit "U+" ++ drop 2 (ci_hex info)))
              ++ lit " at " ++ str_of_nat i ++ lit "]")
      else Some [char]
  end.

(** [generate_char_map] *)
Definition generate_char_map (text : pystr) : option pystr :=
  match text with
  | [] => Some (u8 "空字符串")
  | _ :: _ =>
      char_map ← foldlM (λ (char_map : list pystr) '(i, char),
                           display ← char_display i char;
                           Some (char_map ++ [display]))
                        [] (imap pair text);
      Some (mjoin (char_map : list pystr))
  end.

End AnalyzerRest.

(** A character [generate_char_map] shows as it is. *)
Definition visible {RT : Runtime} (c : pychar) : Prop :=
  isprintable c = true ∧ special_chars !! c = None.

(** The kind seen from the other string. *)
Definition swap_kind (k : diff_type) : diff_type :=
  match k with
  | insertion => deletion
  | deletion => insertion
  | k => k
  end.

(** The difference at one index with the two strings exchanged. *)
Definition swap_diff (d : CharDiff) : CharDiff :=
  {| position := position d;
     char1 := char2 d;
     char2 := char1 d;
     char1_info := char2_info d;
     char2_info := char1_info d;
     type := swap_kind (type d) |}.

(** One of the digits [0]..[9] and [A]..[F]. *)
Definition upper_hex_digit (d : pychar) : Prop :=
  (0x30 ≤ d ≤ 0x39)%N ∨ (0x41 ≤ d ≤ 0x46)%N.

(** The value of a string of hexadecimal digits. *)
Definition hex_value (ds : pystr) : N :=
  foldl (λ acc d, acc * 16 + (if (d <? 0x3A)%N then d - 0x30 else d - 0x37))%N
        0%N ds.

(** The value of a string of decimal digits. *)
Definition dec_value (ds : pystr) : N :=
  foldl (λ acc d, acc * 10 + (d - 0x30))%N 0%N ds.

(** The test of [_find_special_chars] on the character at index [i]. *)
Definition special_at {RT : Runtime} (text : pystr) (i : nat) : Prop :=
  from_option (λ c, in_special_chars c || negb (isprintable c)) false
              (text !! i) = true.

Global Instance special_at_dec {RT : Runtime} text i :
  Decision (special_at text i).
Proof. unfold special_at. apply _. Defined.

Global Instance visible_dec {RT : Runtime} c : Decision (visible c).
Proof. unfold visible. apply _. Defined.

(** * More on frames *)

(** The cells of a frame. *)
Definition cells (df : DataFrame) : list cell := mjoin (values df).

(** [df.fillna(v)] *)
Definition fillna (df : DataFrame) (v : cell) : DataFrame :=
  {| columns := columns df;
     index := index df;
     values :=
       (λ r : list cell, (λ x, if x is CNaN then v else x) <$> r)
         <$> values df |}.

(** * More on the comparison *)

(** A record comes before another when its cell does, reading the grid
    row by row. *)
Definition cell_before (d1 d2 : CellDifference) : Prop :=
  row d1 < row d2 ∨ (row d1 = row d2 ∧ col d1 < col d2).

(** Every file that loads is a grid. *)
Definition loads_grids {FS : Files} : Prop :=
  ∀ path df, load_csv path = Some df → grid_ok df.

(** * Loading a file

    [detect_encoding] and [load_csv] of [comparator.py], over what the
    disk, [chardet] and [pd.read_csv] answer. *)

(** How [pd.read_csv] can fail: with [UnicodeDecodeError], or with any
    other exception. *)
Inductive read_error :=
  | DecodeError
  | OtherReadError.

(** How [load_csv] can fail: the file cannot be opened for detection,
    [read_csv] raises something other than [UnicodeDecodeError], or no
    encoding decodes the file. *)
Inductive load_error :=
  | OpenFailed
  | ReadFailed
  | UnknownEncoding.

Class Disk := {
  (** [open(path, 'rb')] and [read(10000)]; [None] is [OSError] *)
  read_head : pystr → option (list N);
  (** [chardet.detect(raw)['encoding']], which may be [None] *)
  chardet_detect : list N → option pystr;
  (** [pd.read_csv(path, encoding=enc, dtype=str, keep_default_na=False)] *)
  read_csv : pystr → pystr → DataFrame + read_error;
}.

(** The encodings [load_csv] falls back to, in order. *)
Definition fallback_encodings : list pystr :=
  [lit "utf-8"; lit "gbk"; lit "gb2312"; lit "iso-8859-1"; lit "cp1252"].

Section Loading.
Context {D : Disk}.

(** [detect_encoding]: [result['encoding'] or 'utf-8']. *)
Definition detect_encoding_impl (file_path : pystr) : option pystr :=
  raw_data ← read_head file_path;
  Some (str_or (default [] (chardet_detect raw_data)) (lit "utf-8")).

(** The warning [load_csv] prints when a fallback encoding succeeds. *)
Definition load_warning (enc file_path : pystr) : pystr :=
  u8 "Warning: 使用编码 " ++ enc ++ u8 " 加载文件 " ++ file_path.

(** The loop of [load_csv] over the fallback encodings: what it prints,
    and the frame returned or the exception raised. *)
Fixpoint try_encodings (file_path : pystr) (encs : list pystr)
    : list pystr * (DataFrame + load_error) :=
  match encs with
  | [] => ([], inr UnknownEncoding)
  | enc :: encs' =>
      match read_csv file_path enc with
      | inl df => ([load_warning enc file_path], inl (fillna df (CStr [])))
      | inr DecodeError => try_encodings file_path encs'
      | inr OtherReadError => ([], inr ReadFailed)
      end
  end.

(** [load_csv]; [encoding = None] asks for detection. *)
Definition load_csv_impl (file_path : pystr) (encoding : option pystr)
    : list pystr * (DataFrame + load_error) :=
  match (if encoding is Some e then Some e
         else detect_encoding_impl file_path) with
  | None => ([], inr OpenFailed)
  | Some encoding =>
      match read_csv file_path encoding with
      | inl df => ([], inl (fillna df (CStr [])))
      | inr DecodeError => try_encodings file_path fallback_encodings
      | inr OtherReadError => ([], inr ReadFailed)
      end
  end.

End Loading.

(** * reporter.py *)

(** [html_escape_table] of [_escape_html]. *)
Definition html_escape_table : list (pychar * pystr) :=
  [ (0x26, lit "&amp;");
    (0x22, lit "&quot;");
    (0x27, lit "&#x27;");
    (0x3E, lit "&gt;");
    (0x3C, lit "&lt;") ]%N.

(** [_escape_html] on a string. *)
Definition _escape_html (text : pystr) : pystr :=
  text ≫= λ c, default [c] (dict_get c html_escape_table).

(** A row shorter than the header leaves a missing value. *)
Definition sample_short : DataFrame :=
  {| columns := [lit "A"; lit "B"];
     index := [0];
     values := [ [CStr (lit "x"); CNaN] ] |}.

(** A disk with one file, which only gbk decodes and for which [chardet]
    names no encoding. *)
Definition sample_disk : Disk :=
  {| read_head := λ path,
       if decide (path = lit "data.csv") then Some [] else None;
     chardet_detect := λ raw, None;
     read_csv := λ path enc,
       if decide (path = lit "data.csv") then
         if decide (enc = lit "gbk") then inl sample_short
         else inr DecodeError
       else inr OtherReadError |}.

(** ** Printing

    A computation that prints: the strings handed to [print], in order, and
    the value returned, or [None] when an exception ended it. *)
Record out (A : Type) := Out {
  printed : list pystr;
  outcome : option A;
}.
Global Arguments Out {A} _ _.
Global Arguments printed {A} _.
Global Arguments outcome {A} _.

Global Instance out_ret : MRet out := λ A x, Out [] (Some x).
Global Instance out_bind : MBind out := λ A B f m,
  match outcome m with
  | Some x => Out (printed m ++ printed (f x)) (outcome (f x))
  | None => Out (printed m) None
  end.

(** [print(s)] *)
Definition print (s : pystr) : out unit := Out [s] (Some tt).

(** A step that may raise and prints nothing. *)
Definition lift {A} (x : option A) : out A := Out [] x.

(** A [for] loop over [l]. *)
Fixpoint for_each {X} (l : list X) (body : X → out unit) : out unit :=
  match l with
  | [] => mret tt
  | x :: l' => _ ← body x; for_each l' body
  end.

(** What the interpreter supplies to the reporter: number formats, the
    [str] of a list of strings, and path handling. *)
Class Formats := {
  (** [f'{x:.N%}'] *)
  format_percent : nat → Q → pystr;
  (** [f'{x:.Nf}'] *)
  format_fixed : nat → Q → pystr;
  (** [f'{n:,}'] *)
  format_thousands : Z → pystr;
  (** [str(l)] for a list of strings *)
  str_of_list : list pystr → pystr;
  (** [Path(p).name] *)
  path_name : pystr → pystr;
  (** [Path(a) / b] *)
  path_join : pystr → pystr → pystr;
}.

(** The strings [_classify_difference] returns. *)
Definition kind_name (k : diff_type) : pystr :=
  match k with
  | insertion => lit "insertion"
  | deletion => lit "deletion"
  | whitespace_substitution => lit "whitespace_substitution"
  | whitespace_difference => lit "whitespace_difference"
  | unicode_difference => lit "unicode_difference"
  | character_substitution => lit "character_substitution"
  end.


(** One row of the table of [generate_batch_summary]. *)
Record SummaryRow := {
  sr_target : pystr;
  sr_similarity : pystr;
  sr_total_cells : Z;
  sr_identical_cells : Z;
  sr_different_cells : Z;
  sr_rate : pystr;
  sr_rows : nat;
  sr_columns : nat;
  sr_encoding : pystr;
}.

(** Writing the table. *)
Class Writer := {
  (** [pd.DataFrame(rows).to_csv(path, index=False, encoding='utf-8-sig')];
      [None] is [OSError] *)
  to_csv : pystr → list SummaryRow → option unit;
}.

Section Reporter.
Context {F : Formats} {W : Writer}.

(** The preview of one difference in [print_summary]. *)
Definition print_preview (p : nat * CellDifference) : out unit :=
  let '(i, diff) := p in
  _ ← print (lit "  " ++ str_of_nat (i + 1) ++ u8 ". 行"
             ++ str_of_nat (row diff + 1) ++ u8 ", 列'"
             ++ col_name diff ++ lit "':");
  _ ← print (u8 "     原始: " ++ original_repr diff);
  _ ← print (u8 "     目标: " ++ target_repr diff);
  match unicode_analysis diff with
  | Some analysis =>
      if diff_types analysis is _ :: _ then
        print (u8 "     差异类型: "
               ++ str_of_list (kind_name <$> (diff_types analysis).*1))
      else mret tt
  | None => mret tt
  end.

(** [print_summary] *)
Definition print_summary (result : ComparisonResult) (target_file : pystr)
    : out unit :=
  _ ← print ([0x0A%N] ++ replicate 60 0x3D%N);
  _ ← print (u8 "📊 CSV文件比对结果摘要");
  _ ← (if target_file is _ :: _ then print (u8 "目标文件: " ++ target_file)
       else mret tt);
  _ ← print (replicate 60 0x3D%N);
  _ ← print (u8 "📈 总体相似度: " ++ format_percent 2 (similarity result));
  _ ← print (u8 "📋 总单元格数: " ++ format_thousands (total_cells result));
  _ ← print (u8 "✅ 相同单元格: "
             ++ format_thousands (identical_cells result));
  _ ← print (u8 "❌ 不同单元格: "
             ++ format_thousands (different_cells result));
  rate ← lift (truediv (different_cells result) (total_cells result));
  _ ← print (u8 "📉 差异率: " ++ format_fixed 2 (rate * 100)%Q ++ lit "%");
  _ ← (if (0 <? different_cells result)%Z then
         _ ← print ([0x0A%N] ++ u8 "🔍 差异详情预览 (前5个):");
         for_each (imap pair (take 5 (cell_differences result))) print_preview
       else mret tt);
  _ ← print ([0x0A%N] ++ u8 "📁 文件信息:");
  let base_info := base_file_info result in
  let target_info := target_file_info result in
  _ ← print (u8 "  基准文件: " ++ str_of_nat (fi_rows base_info) ++ u8 "行 x "
             ++ str_of_nat (fi_columns base_info) ++ u8 "列 ("
             ++ fi_encoding base_info ++ lit ")");
  print (u8 "  目标文件: " ++ str_of_nat (fi_rows target_info) ++ u8 "行 x "
         ++ str_of_nat (fi_columns target_info) ++ u8 "列 ("
         ++ fi_encoding target_info ++ lit ")").




End Reporter.


(** Formats that show integers only, for the examples. *)
Definition sample_formats : Formats :=
  {| format_percent := λ digits x, str_of_N (Z.to_N (Qnum x)) ++ lit "/"
                                   ++ str_of_N (Npos (Qden x));
     format_fixed := λ digits x, str_of_N (Z.to_N (Qnum x)) ++ lit "/"
                                 ++ str_of_N (Npos (Qden x));
     format_thousands := λ n, str_of_N (Z.to_N n);
     str_of_list := λ l, lit "[" ++ mjoin l ++ lit "]";
     path_name := λ p, p;
     path_join := λ a b, a ++ lit "/" ++ b |}.

(** [format_size] of [generate_html_report].  The size is an integer;
    below 2^53 every division by 1024 is exact in floating point, so the
    number handed to the format is the rational kept here. *)
Fixpoint format_size_loop {F : Formats} (units : list pystr) (size_bytes : Q)
    : pystr :=
  match units with
  | [] => format_fixed 1 size_bytes ++ lit " TB"
  | unit :: units' =>
      if Qle_bool 1024 size_bytes then
        format_size_loop units' (size_bytes / 1024)%Q
      else format_fixed 1 size_bytes ++ lit " " ++ unit
  end.

Definition format_size {F : Formats} (size_bytes : N) : pystr :=
  format_size_loop [lit "B"; lit "KB"; lit "MB"; lit "GB"]
                   (inject_Z (Z.of_N size_bytes)).

(** The cell of a record and the values it shows, and the same with the
    two sides exchanged. *)
Definition sides (d : CellDifference)
    : nat * nat * pystr * pystr * pystr * pystr * pystr :=
  (row d, col d, col_name d, original d, target d,
   original_repr d, target_repr d).

Definition sides_swapped (d : CellDifference)
    : nat * nat * pystr * pystr * pystr * pystr * pystr :=
  (row d, col d, col_name d, target d, original d,
   target_repr d, original_repr d).

(** * Properties of the analyzer *)

Lemma classify_insertion_iff c1 c2 :
  _classify_difference c1 c2 = insertion ↔ c1 = None.
Proof.
  destruct c1 as [x|], c2 as [y|]; simpl; [| |done..].
  - destruct (isspace x), (isspace y), (127 <? ord x)%N, (127 <? ord y)%N;
      done.
  - done.
Qed.

Lemma classify_deletion_iff c1 c2 :
  _classify_difference c1 c2 = deletion ↔ c1 ≠ None ∧ c2 = None.
Proof.
  destruct c1 as [x|], c2 as [y|]; simpl.
  - destruct (isspace x), (isspace y), (127 <? ord x)%N, (127 <? ord y)%N;
      (split; [done|intros [_ [=]]]).
  - split; done.
  - split; [done|intros [[] _]; done].
  - split; [done|intros [[] _]; done].
Qed.

Lemma classify_eq_kind_by_priority c1 c2 :
  _classify_difference c1 c2 = kind_by_priority c1 c2.
Proof.
  destruct c1 as [x|], c2 as [y|]; try reflexivity.
  unfold kind_by_priority; simpl.
  destruct (isspace x), (isspace y); reflexivity.
Qed.

(** C1. The kind of a mismatch is decided in the fixed priority absent-A,
    absent-B, both whitespace, one whitespace, non-ASCII, substitution; two
    whitespace characters are always a [whitespace_substitution], also when
    one of them is not ASCII, as for U+00A0 against U+0020. *)
Theorem classify_difference_priority :
  (∀ c1 c2, _classify_difference c1 c2 = kind_by_priority c1 c2)
  ∧ (∀ x y, isspace x = true → isspace y = true →
       _classify_difference (Some x) (Some y) = whitespace_substitution
       ∧ _classify_difference (Some x) (Some y) ≠ unicode_difference)
  ∧ _classify_difference (Some 0xA0%N) (Some 0x20%N) = whitespace_substitution.
Proof.
  split; [|split].
  - apply classify_eq_kind_by_priority.
  - intros x y Hx Hy. simpl. rewrite Hx, Hy. done.
  - reflexivity.
Qed.

Lemma classify_difference_priority_witness :
  _classify_difference (Some 0xA0%N) (Some 0x20%N) = whitespace_substitution
  ∧ _classify_difference (Some 0xA0%N) (Some 0x20%N) ≠ unicode_difference.
Proof.
  apply (proj1 (proj2 classify_difference_priority) 0xA0%N 0x20%N);
    reflexivity.
Defined.

Section AnalyzerFacts.
Context {RT : Runtime}.

Lemma diff_step_spec a b acc i :
  diff_step a b acc i
  = acc ++ (if decide (a !! i ≠ b !! i) then [diff_at a b i] else []).
Proof.
  unfold diff_step; cbv zeta. case_decide; [|by rewrite app_nil_r].
  unfold diff_at. by destruct (a !! i), (b !! i).
Qed.

Lemma foldl_diff_step a b l acc :
  foldl (diff_step a b) acc l
  = acc ++ (diff_at a b <$> filter (λ i, a !! i ≠ b !! i) l).
Proof.
  revert acc. induction l as [|i l IH]; intros acc; simpl.
  - by rewrite app_nil_r.
  - rewrite IH, diff_step_spec, filter_cons.
    case_decide; simpl; by rewrite <- ?app_assoc, ?app_nil_r.
Qed.

Lemma find_string_differences_eq a b :
  find_string_differences a b = diff_at a b <$> mismatches a b.
Proof. unfold find_string_differences. by rewrite foldl_diff_step. Qed.

Lemma positions_eq a b :
  position <$> find_string_differences a b = mismatches a b.
Proof.
  rewrite find_string_differences_eq, <- list_fmap_compose.
  apply list_fmap_id.
Qed.

Lemma mismatches_refl s : mismatches s s = [].
Proof.
  unfold mismatches. induction (seq 0 _) as [|i l IH]; [done|].
  rewrite filter_cons_False; [done|]. intros Hne. by apply Hne.
Qed.

Lemma StronglySorted_lt_seq j n : StronglySorted lt (seq j n).
Proof.
  revert j. induction n as [|n IH]; intros j; simpl; constructor; [done|].
  apply Forall_forall. intros k Hk%elem_of_seq. lia.
Qed.

Lemma StronglySorted_filter {A} (R : relation A) (P : A → Prop)
    `{∀ x, Decision (P x)} l :
  StronglySorted R l → StronglySorted R (filter P l).
Proof.
  induction 1 as [|x l Hl IH Hx]; [constructor|].
  rewrite filter_cons. case_decide; [|done].
  constructor; [done|].
  apply Forall_forall. intros y [_ Hy]%list_elem_of_filter.
  by eapply Forall_forall in Hx.
Qed.

Lemma length_filter_range lo hi n :
  length (filter (λ i, lo ≤ i ∧ i < hi) (seq 0 n)) = min hi n - lo.
Proof.
  induction n as [|n IH]; [simpl; lia|].
  rewrite seq_S, filter_app, length_app, IH. simpl.
  rewrite filter_cons, filter_nil. case_decide; simpl; lia.
Qed.

Lemma count_kind_diff_at k a b l :
  count_kind k (diff_at a b <$> l)
  = length (filter (λ i, _classify_difference (a !! i) (b !! i) = k) l).
Proof.
  unfold count_kind. induction l as [|i l IH]; [done|].
  rewrite fmap_cons, !filter_cons. simpl.
  case_decide; simpl; by rewrite IH.
Qed.

Lemma count_insertion a b :
  count_kind insertion (find_string_differences a b) = length b - length a.
Proof.
  rewrite find_string_differences_eq, count_kind_diff_at.
  unfold mismatches. rewrite list_filter_filter.
  rewrite (list_filter_iff _ (λ i, length a ≤ i ∧ i < length b)).
  - rewrite length_filter_range. lia.
  - intros i. rewrite classify_insertion_iff, lookup_ge_None.
    split.
    + intros [Ha Hne]. split; [done|].
      apply lookup_lt_is_Some. apply lookup_ge_None in Ha.
      rewrite Ha in Hne. destruct (b !! i); [eauto|done].
    + intros [Ha Hb]. split; [done|].
      apply lookup_ge_None in Ha. apply lookup_lt_is_Some in Hb as [y Hy].
      rewrite Ha, Hy. done.
Qed.

Lemma count_deletion a b :
  count_kind deletion (find_string_differences a b) = length a - length b.
Proof.
  rewrite find_string_differences_eq, count_kind_diff_at.
  unfold mismatches. rewrite list_filter_filter.
  rewrite (list_filter_iff _ (λ i, length b ≤ i ∧ i < length a)).
  - rewrite length_filter_range. lia.
  - intros i. rewrite classify_deletion_iff.
    split.
    + intros [[Ha Hb] _]. split; [by apply lookup_ge_None|].
      apply lookup_lt_is_Some. destruct (a !! i); [eauto|done].
    + intros [Hb Ha]. apply lookup_lt_is_Some in Ha as [x Hx].
      apply lookup_ge_None in Hb. rewrite Hx, Hb. done.
Qed.

End AnalyzerFacts.

(** C2. The diff walks the indices below [max (len a) (len b)], reads each
    string at the index when it is in range and nothing otherwise, and
    records one difference exactly at the indices where the two readings
    are unequal; ["abc"] against ["abcd"] gives one difference, at
    position 3, an insertion. *)
Theorem find_string_differences_positional {RT : Runtime} :
  (∀ a b,
     find_string_differences a b
     = diff_at a b
         <$> filter (λ i, a !! i ≠ b !! i) (seq 0 (max (length a) (length b))))
  ∧ (∀ a b i,
       i ∈ position <$> find_string_differences a b
       ↔ i < max (length a) (length b) ∧ a !! i ≠ b !! i)
  ∧ (∀ a b, NoDup (position <$> find_string_differences a b))
  ∧ (∀ a b d,
       d ∈ find_string_differences a b →
       char1 d = a !! position d ∧ char2 d = b !! position d
       ∧ type d = kind_by_priority (char1 d) (char2 d))
  ∧ find_string_differences (lit "abc") (lit "abcd")
    = [ {| position := 3;
           char1 := None;
           char2 := Some 0x64%N;
           char1_info := None;
           char2_info := Some (get_char_info (Some 0x64%N));
           type := insertion |} ].
Proof.
  split_and!.
  - apply find_string_differences_eq.
  - intros a b i. rewrite positions_eq. unfold mismatches.
    rewrite list_elem_of_filter, elem_of_seq. intuition lia.
  - intros a b. rewrite positions_eq. apply NoDup_filter, NoDup_seq.
  - intros a b d. rewrite find_string_differences_eq.
    intros (i & -> & _)%list_elem_of_fmap. simpl.
    split_and!; [done..|]. apply classify_eq_kind_by_priority.
  - reflexivity.
Qed.

(** C9. A string has no difference with itself, and the analysis reports
    the two as equal. *)
Theorem analyze_difference_self {RT : Runtime} (s : pystr) :
  find_string_differences s s = []
  ∧ differences (analyze_difference s s) = []
  ∧ diff_count (analyze_difference s s) = 0
  ∧ are_equal (analyze_difference s s) = true.
Proof.
  assert (find_string_differences s s = []) as Hnil.
  { by rewrite find_string_differences_eq, mismatches_refl. }
  split_and!; simpl; rewrite ?Hnil; try done.
  by apply bool_decide_eq_true.
Qed.

(** C10. The diff of [a] and [b] holds [len b - len a] insertions when [b]
    is longer and none otherwise, [len a - len b] deletions when [a] is
    longer and none otherwise, all of them at or after the shorter length;
    the positions increase strictly and stay below the longer length. *)
Theorem insertions_deletions_count {RT : Runtime} (a b : pystr) :
  let ds := find_string_differences a b in
  Z.of_nat (count_kind insertion ds)
    = Z.max 0 (Z.of_nat (length b) - Z.of_nat (length a))
  ∧ Z.of_nat (count_kind deletion ds)
    = Z.max 0 (Z.of_nat (length a) - Z.of_nat (length b))
  ∧ Forall (λ d, type d = insertion ∨ type d = deletion →
                 min (length a) (length b) ≤ position d) ds
  ∧ StronglySorted lt (position <$> ds)
  ∧ Forall (λ i, i < max (length a) (length b)) (position <$> ds).
Proof.
  cbv zeta. split_and!.
  - rewrite count_insertion. lia.
  - rewrite count_deletion. lia.
  - rewrite find_string_differences_eq. apply Forall_fmap, Forall_forall.
    intros i _. simpl.
    rewrite classify_insertion_iff, classify_deletion_iff, !lookup_ge_None.
    lia.
  - rewrite positions_eq. apply StronglySorted_filter, StronglySorted_lt_seq.
  - rewrite positions_eq. apply Forall_forall.
    intros i [_ Hi%elem_of_seq]%list_elem_of_filter. lia.
Qed.

(** C7, as the source has it.  The table has an entry, a non-empty name,
    for U+00A0, U+2009 to U+200D, U+2028, U+2029, U+202F, U+205F, U+3000,
    tab, newline, carriage return, form feed, vertical tab, U+2010 to U+2015
    and U+2018 to U+201F; it has none for U+2000 to U+2008, and its only
    other key is the space U+0020. *)
Theorem special_chars_domain :
  Forall (λ c, ∃ name, special_chars !! c = Some name ∧ name ≠ [])
         held_code_points
  ∧ Forall (λ c, special_chars !! c = None) (code_range 0x2000 9)
  ∧ (∀ c, is_Some (special_chars !! c) ↔ c = 0x20%N ∨ c ∈ held_code_points).
Proof.
  assert (∀ c, is_Some (special_chars !! c) ↔ c ∈ 0x20%N :: held_code_points)
    as Hdom.
  { intros c. rewrite <- elem_of_dom.
    replace (dom special_chars)
      with (list_to_set (C:=gset N) (0x20%N :: held_code_points))
      by (by vm_compute).
    by rewrite elem_of_list_to_set. }
  split_and!.
  - apply Forall_forall. intros c Hc.
    destruct (proj2 (Hdom c)) as [name Hname]; [by right|].
    exists name. split; [done|].
    apply elem_of_list_to_map_2 in Hname.
    assert (Forall (λ p, p.2 ≠ []) special_chars_items) as Hnames.
    { unfold special_chars_items. repeat (constructor; [done|]). constructor. }
    rewrite Forall_forall in Hnames. apply (Hnames _ Hname).
  - unfold code_range. simpl. repeat (constructor; [by vm_compute|]).
    constructor.
  - intros c. by rewrite Hdom, elem_of_cons.
Qed.

(** C7, as stated, fails: U+2000 is among the listed code points and the
    table has no entry for it. *)
Lemma special_chars_lacks_U2000 :
  0x2000%N ∈ listed_code_points ∧ special_chars !! 0x2000%N = None.
Proof. split; [|by vm_compute]. by apply (bool_decide_unpack _); vm_compute. Qed.

(** C8. The is-invisible field of a character is true exactly when the
    character is not printable or is a key of the curated table; the
    en dash U+2013 is flagged whatever the printable test says. *)
Theorem is_invisible_spec {RT : Runtime} (c : pychar) :
  ∃ i, get_char_info (Some c) = Info i
    ∧ ci_is_invisible i
      = negb (isprintable c) || bool_decide (is_Some (special_chars !! c))
    ∧ (ci_is_invisible i = true
       ↔ isprintable c = false ∨ is_Some (special_chars !! c))
    ∧ (c = 0x2013%N → ci_is_invisible i = true).
Proof.
  unfold get_char_info.
  destruct (unicodedata_name c) as [n|];
    (eexists; split; [reflexivity|]); cbn [ci_is_invisible];
    (split_and!; [done| |]).
  1,3: rewrite orb_true_iff, negb_true_iff; unfold in_special_chars;
       by rewrite bool_decide_eq_true.
  all: intros ->; apply orb_true_iff; right; by vm_compute.
Qed.

(** * Properties of the alignment *)

(** ** The order of strings *)

Lemma str_leb_refl s : str_leb s s = true.
Proof.
  induction s as [|a s IH]; [done|]. simpl.
  by rewrite N.ltb_irrefl, N.eqb_refl.
Qed.

Lemma str_leb_trans s t u :
  str_leb s t = true → str_leb t u = true → str_leb s u = true.
Proof.
  revert t u. induction s as [|a s IH]; intros [|b t] [|c u]; simpl; try done.
  destruct (N.ltb_spec a b), (N.eqb_spec a b), (N.ltb_spec b c),
    (N.eqb_spec b c), (N.ltb_spec a c), (N.eqb_spec a c);
    try done; try lia.
  apply IH.
Qed.

Lemma str_leb_antisym s t :
  str_leb s t = true → str_leb t s = true → s = t.
Proof.
  revert t. induction s as [|a s IH]; intros [|b t]; simpl; try done.
  destruct (N.ltb_spec a b), (N.eqb_spec a b), (N.ltb_spec b a),
    (N.eqb_spec b a); try done; try lia.
  intros. f_equal; [done|]. by apply IH.
Qed.

Lemma str_leb_total s t : str_leb s t = true ∨ str_leb t s = true.
Proof.
  revert t. induction s as [|a s IH]; intros [|b t]; simpl; auto.
  destruct (N.ltb_spec a b), (N.eqb_spec a b), (N.ltb_spec b a),
    (N.eqb_spec b a); auto; lia.
Qed.

Global Instance str_le_reflexive : Reflexive str_le.
Proof. intros s. apply str_leb_refl. Qed.
Global Instance str_le_transitive : Transitive str_le.
Proof. intros s t u. apply str_leb_trans. Qed.
Global Instance str_le_antisymm : AntiSymm (=) str_le.
Proof. intros s t. apply str_leb_antisym. Qed.
Global Instance str_le_total : Total str_le.
Proof. intros s t. apply str_leb_total. Qed.

Lemma StronglySorted_strict l :
  StronglySorted str_le l → NoDup l → StronglySorted str_lt l.
Proof.
  induction 1 as [|x l Hl IH Hx]; intros Hnd; [constructor|].
  apply NoDup_cons in Hnd as [Hx' Hnd].
  constructor; [by apply IH|].
  apply Forall_forall. intros y Hy. split.
  - by eapply Forall_forall in Hx.
  - intros ->. done.
Qed.

Lemma sorted_spec l :
  NoDup l → StronglySorted str_lt (sorted l) ∧ sorted l ≡ₚ l.
Proof.
  intros Hnd. unfold sorted. split; [|apply merge_sort_Permutation].
  apply StronglySorted_strict.
  - apply (StronglySorted_merge_sort str_le).
  - by rewrite (merge_sort_Permutation str_le).
Qed.

(** Two strictly ascending lists with the same elements are equal. *)
Lemma StronglySorted_str_lt_unique l1 l2 :
  StronglySorted str_lt l1 → StronglySorted str_lt l2 →
  (∀ c, c ∈ l1 ↔ c ∈ l2) → l1 = l2.
Proof.
  intros H1 H2 Hiff.
  assert (∀ l, StronglySorted str_lt l → NoDup l) as Hnd.
  { induction 1 as [|x l Hl IH Hx]; constructor; [|done].
    intros Hin. eapply Forall_forall in Hx; [|done]. by destruct Hx. }
  assert (∀ l, StronglySorted str_lt l → StronglySorted str_le l) as Hle.
  { induction 1 as [|x l Hl IH Hx]; constructor; [done|].
    eapply Forall_impl; [done|]. by intros ? []. }
  apply (StronglySorted_unique str_le); auto.
  apply NoDup_Permutation; auto.
Qed.

(** ** Reading a row by label *)

Lemma get_loc_lookup c cols j :
  get_loc c cols = Some j → cols !! j = Some c.
Proof.
  unfold get_loc. intros ([j' c'] & Hf & ->)%fmap_Some.
  apply list_find_Some in Hf as (? & -> & _). done.
Qed.

Lemma get_loc_None c cols : get_loc c cols = None ↔ c ∉ cols.
Proof.
  unfold get_loc. rewrite fmap_None, list_find_None, Forall_forall.
  split.
  - intros Hall Hin. by apply (Hall c).
  - intros Hnin x Hx ->. done.
Qed.

Lemma get_loc_is_Some c cols : c ∈ cols → is_Some (get_loc c cols).
Proof.
  intros Hin. destruct (get_loc c cols) eqn:Hg; [eauto|].
  by apply get_loc_None in Hg.
Qed.

Lemma get_loc_app_l c l1 l2 : c ∈ l1 → get_loc c (l1 ++ l2) = get_loc c l1.
Proof.
  intros [j Hj]%get_loc_is_Some. rewrite Hj. unfold get_loc in *.
  apply fmap_Some in Hj as ([j' c'] & Hf & ->).
  by rewrite (list_find_app_l _ _ _ _ _ Hf).
Qed.

Lemma get_loc_app_r c l1 l2 :
  c ∉ l1 → get_loc c (l1 ++ l2) = (λ k, k + length l1) <$> get_loc c l2.
Proof.
  intros Hnin%get_loc_None. unfold get_loc in *.
  apply fmap_None in Hnin. rewrite list_find_app_r by done.
  by destruct (list_find _ l2) as [[??]|].
Qed.

Lemma row_get_is_Some cols r c :
  c ∈ cols → length r = length cols → is_Some (row_get cols r c).
Proof.
  intros [j Hj]%get_loc_is_Some Hlen. unfold row_get. rewrite Hj. simpl.
  apply lookup_lt_is_Some. rewrite Hlen.
  apply get_loc_lookup in Hj. by eapply lookup_lt_Some.
Qed.

Lemma row_get_app_l cols new r ext c :
  c ∈ cols → length r = length cols →
  row_get (cols ++ new) (r ++ ext) c = row_get cols r c.
Proof.
  intros Hin Hlen. unfold row_get. rewrite get_loc_app_l by done.
  destruct (get_loc c cols) as [j|] eqn:Hj; [simpl|done].
  apply lookup_app_l. rewrite Hlen.
  apply get_loc_lookup in Hj. by eapply lookup_lt_Some.
Qed.

Lemma row_get_app_r cols new r ext c :
  c ∉ cols → length r = length cols →
  row_get (cols ++ new) (r ++ ext) c = row_get new ext c.
Proof.
  intros Hnin Hlen. unfold row_get. rewrite get_loc_app_r by done.
  destruct (get_loc c new) as [k|]; [simpl|done].
  rewrite lookup_app_r by lia. f_equal. lia.
Qed.

Lemma row_get_replicate cols v c :
  c ∈ cols → row_get cols (replicate (length cols) v) c = Some v.
Proof.
  intros [j Hj]%get_loc_is_Some. unfold row_get. rewrite Hj. simpl.
  apply lookup_replicate_2. apply get_loc_lookup in Hj.
  by eapply lookup_lt_Some.
Qed.

Lemma row_get_fmap (f : pystr → cell) cols c :
  c ∈ cols → row_get cols (f <$> cols) c = Some (f c).
Proof.
  intros [j Hj]%get_loc_is_Some. unfold row_get. rewrite Hj. simpl.
  apply get_loc_lookup in Hj. by rewrite list_lookup_fmap, Hj.
Qed.

(** ** The steps of [normalize_dataframes] *)

Lemma filter_ext_in {A} (P Q : A → Prop) `{∀ x, Decision (P x)}
    `{∀ x, Decision (Q x)} (l : list A) :
  (∀ x, x ∈ l → (P x ↔ Q x)) → filter P l = filter Q l.
Proof.
  induction l as [|x l IH]; intros Hext; [done|].
  rewrite !filter_cons.
  rewrite IH by (intros y Hy; apply Hext; by right).
  destruct (decide (P x)) as [HP|HP], (decide (Q x)) as [HQ|HQ]; try done;
    exfalso; apply (Hext x) in HP || apply (Hext x) in HQ; try done; by left.
Qed.

Lemma extend_nil df : extend df [] = df.
Proof.
  destruct df as [cols idx vals]. unfold extend; simpl.
  rewrite app_nil_r. f_equal.
  rewrite <- (list_fmap_id vals) at 2. apply list_fmap_ext.
  intros _ r _. apply app_nil_r.
Qed.

Lemma extend_add_column df c new :
  extend (add_column df c (CStr [])) new = extend df (c :: new).
Proof.
  unfold extend, add_column; simpl. rewrite <- app_assoc. f_equal.
  rewrite <- list_fmap_compose. apply list_fmap_ext.
  intros _ r _. simpl. by rewrite <- app_assoc.
Qed.

Lemma foldl_add_missing1 df it :
  NoDup it →
  foldl add_missing1 df it = extend df (filter (λ c, c ∉ columns df) it).
Proof.
  revert df. induction it as [|c it IH]; intros df Hnd; simpl.
  { by rewrite filter_nil, extend_nil. }
  apply NoDup_cons in Hnd as [Hc Hnd]. rewrite IH by done.
  unfold add_missing1. rewrite filter_cons.
  destruct (decide (c ∉ columns df)) as [Hnin|Hin]; [|done].
  rewrite extend_add_column. do 2 f_equal.
  apply filter_ext_in. intros x Hx. simpl.
  rewrite elem_of_app, list_elem_of_singleton.
  split; [tauto|]. intros Hx' [?| ->]; done.
Qed.

Lemma foldl_add_missing df1 df2 it :
  foldl add_missing (df1, df2) it
  = (foldl add_missing1 df1 it, foldl add_missing1 df2 it).
Proof.
  revert df1 df2. induction it as [|c it IH]; intros df1 df2; simpl; [done|].
  unfold add_missing at 2; simpl. apply IH.
Qed.

Lemma extend_grid_ok df new :
  grid_ok df → NoDup new → (∀ c, c ∈ new → c ∉ columns df) →
  grid_ok (extend df new).
Proof.
  intros [[Hlen Hrows] Hnd] Hnew Hdisj. split; [split|]; simpl.
  - by rewrite length_fmap.
  - apply Forall_fmap. eapply Forall_impl; [done|].
    intros r Hr. simpl. by rewrite !length_app, length_replicate, Hr.
  - apply NoDup_app. split_and!; [done| |done].
    intros c Hc Hc'. by apply (Hdisj c).
Qed.

Lemma cell_at_extend df new r c :
  frame_ok df → NoDup new → c ∈ columns df ∨ c ∈ new →
  cell_at (extend df new) r c
  = if decide (c ∈ columns df) then cell_at df r c
    else _ ← values df !! r; Some (CStr []).
Proof.
  intros [_ Hrows] Hnew Hc. unfold cell_at; simpl.
  rewrite list_lookup_fmap.
  destruct (values df !! r) as [cells|] eqn:Hr; simpl; [|by case_decide].
  assert (length cells = length (columns df)) as Hlen.
  { eapply Forall_lookup_1 in Hrows; done. }
  case_decide as Hin.
  - by apply row_get_app_l.
  - rewrite row_get_app_r by done.
    apply row_get_replicate. by destruct Hc.
Qed.

Lemma reindex_spec df cols :
  grid_ok df → (∀ c, c ∈ cols → c ∈ columns df) →
  ∃ df', reindex df cols = Some df'
    ∧ columns df' = cols ∧ index df' = index df ∧ frame_ok df'
    ∧ ∀ r c, c ∈ cols → cell_at df' r c = cell_at df r c.
Proof.
  intros [[Hlen Hrows] Hnd] Hsub. unfold reindex.
  destruct (decide (columns df = cols)) as [<-|Hne].
  { exists df. by split_and!. }
  rewrite decide_True by done. eexists. split; [done|]. simpl.
  split_and!; [done..| |].
  - split; simpl; [by rewrite length_fmap|].
    apply Forall_fmap, Forall_forall. intros r _. simpl.
    by rewrite length_fmap.
  - intros r c Hc. unfold cell_at; simpl. rewrite list_lookup_fmap.
    destruct (values df !! r) as [cells|] eqn:Hr; simpl; [|done].
    rewrite (row_get_fmap (λ c, default CNaN (row_get (columns df) cells c)))
      by done.
    assert (length cells = length (columns df)) as Hcells.
    { eapply Forall_lookup_1 in Hrows; done. }
    destruct (row_get_is_Some (columns df) cells c) as [x Hx]; auto.
    by rewrite Hx.
Qed.

Lemma pad_rows_spec df m :
  frame_ok df →
  let df' := pad_rows df m in
  columns df' = columns df ∧ len df' = max (len df) m ∧ frame_ok df'
  ∧ ∀ r c, c ∈ columns df →
      cell_at df' r c
      = if decide (r < len df) then cell_at df r c
        else if decide (r < m) then Some (CStr []) else None.
Proof.
  intros [Hlen Hrows]. unfold pad_rows, len in *.
  destruct (decide (length (index df) < m)) as [Hlt|Hge]; simpl.
  - split_and!; [done| | |].
    + rewrite length_app, length_seq. lia.
    + split; simpl.
      * rewrite !length_app, length_replicate, !length_seq. lia.
      * apply Forall_app. split; [done|].
        apply Forall_replicate. by rewrite length_replicate.
    + intros r c Hc. unfold cell_at; simpl.
      case_decide as Hr.
      * rewrite lookup_app_l by lia. done.
      * rewrite lookup_app_r by lia. rewrite length_seq.
        case_decide as Hm.
        -- rewrite lookup_replicate_2 by lia. simpl.
           by apply row_get_replicate.
        -- rewrite lookup_ge_None_2 by (rewrite length_replicate; lia). done.
  - split_and!; [done|lia|done|].
    intros r c Hc. case_decide; [done|].
    unfold cell_at. rewrite lookup_ge_None_2 by lia.
    simpl. case_decide; [lia|done].
Qed.

Lemma cell_at_reset_index df r c :
  cell_at (reset_index df) r c = cell_at df r c.
Proof. done. Qed.

Lemma frame_ok_reset_index df : frame_ok df → frame_ok (reset_index df).
Proof. intros [Hlen Hrows]. split; simpl; [by rewrite length_seq|done]. Qed.

Section Alignment.
Context {SO : SetOrder}.

Lemma set_iter_NoDup X : NoDup (set_iter X).
Proof. rewrite set_iter_perm. apply NoDup_elements. Qed.

Lemma elem_of_set_iter X c : c ∈ set_iter X ↔ c ∈ X.
Proof. rewrite set_iter_perm. apply elem_of_elements. Qed.

(** The frame one side of [normalize_dataframes] ends with, given the
    labels [it] the set of all columns is walked in. *)
Lemma normalize_side df it m :
  grid_ok df → NoDup it → (∀ c, c ∈ columns df → c ∈ it) →
  ∃ df', reindex (foldl add_missing1 df it) (sorted it) = Some df'
    ∧ len df' = len df
    ∧ let out := reset_index (pad_rows df' m) in
      columns out = sorted it
      ∧ index out = seq 0 (max (len df) m)
      ∧ frame_ok out
      ∧ ∀ r c, r < max (len df) m → c ∈ it →
          cell_at out r c
          = if decide (r < len df ∧ c ∈ columns df) then cell_at df r c
            else Some (CStr []).
Proof.
  intros Hok Hnd Hsub. rewrite foldl_add_missing1 by done.
  set (new := filter (λ c, c ∉ columns df) it).
  assert (NoDup new) as Hnew by by apply NoDup_filter.
  assert (∀ c, c ∈ new → c ∉ columns df) as Hdisj.
  { by intros c [? _]%list_elem_of_filter. }
  assert (∀ c, c ∈ it → c ∈ columns df ∨ c ∈ new) as Hcover.
  { intros c Hc. destruct (decide (c ∈ columns df)); [by left|right].
    by apply list_elem_of_filter. }
  assert (∀ c, c ∈ sorted it ↔ c ∈ it) as Hsorted.
  { intros c. unfold sorted. by rewrite merge_sort_Permutation. }
  destruct (reindex_spec (extend df new) (sorted it))
    as (df' & Hre & Hcols & Hidx & Hok' & Hcell).
  { by apply extend_grid_ok. }
  { intros c Hc%Hsorted. simpl. rewrite elem_of_app. auto. }
  exists df'. split; [done|].
  assert (len df' = len df) as Hlen by (unfold len; by rewrite Hidx).
  split; [done|]. cbv zeta.
  destruct (pad_rows_spec df' m Hok') as (Hpc & Hpl & Hpok & Hpcell).
  split_and!.
  - simpl. by rewrite Hpc.
  - simpl. fold (len (pad_rows df' m)). by rewrite Hpl, Hlen.
  - by apply frame_ok_reset_index.
  - intros r c Hr Hc. rewrite cell_at_reset_index, Hpcell, Hlen
      by (rewrite Hcols; by apply Hsorted).
    destruct Hok as [Hfok _].
    destruct (decide (r < len df)) as [Hlt|Hge].
    + rewrite Hcell by by apply Hsorted.
      rewrite cell_at_extend by auto.
      destruct (decide (c ∈ columns df)) as [Hin|Hnin].
      * by rewrite decide_True.
      * rewrite decide_False by (intros [_ ?]; done).
        destruct Hfok as [Hvals _]. unfold len in Hlt.
        destruct (lookup_lt_is_Some_2 (values df) r) as [cells ->]; [lia|].
        done.
    + destruct (decide (r < len df ∧ c ∈ columns df)) as [[? ?]|_]; [done|].
      rewrite decide_True by lia. done.
Qed.

Lemma normalize_dataframes_spec (df1 df2 : DataFrame) :
  grid_ok df1 → grid_ok df2 →
  ∃ n1 n2,
    normalize_dataframes df1 df2 = Some (n1, n2) ∧ aligned df1 df2 n1 n2.
Proof.
  intros Hok1 Hok2. unfold normalize_dataframes.
  set (all := list_to_set (columns df1) ∪ list_to_set (columns df2)).
  set (it := set_iter all).
  assert (NoDup it) as Hnd by apply set_iter_NoDup.
  assert (∀ c, c ∈ it ↔ c ∈ columns df1 ∨ c ∈ columns df2) as Hit.
  { intros c. unfold it. rewrite elem_of_set_iter. unfold all.
    by rewrite elem_of_union, !elem_of_list_to_set. }
  rewrite foldl_add_missing.
  set (rows := Nat.max (len df1) (len df2)).
  destruct (normalize_side df1 it rows Hok1 Hnd)
    as (r1 & -> & Hl1 & Hc1 & Hi1 & Hf1 & Hcell1); [by intros; apply Hit; left|].
  destruct (normalize_side df2 it rows Hok2 Hnd)
    as (r2 & -> & Hl2 & Hc2 & Hi2 & Hf2 & Hcell2); [by intros; apply Hit; right|].
  simpl. rewrite Hl1, Hl2. fold rows.
  replace (Nat.max (len df1) rows) with rows in * by (unfold rows; lia).
  replace (Nat.max (len df2) rows) with rows in * by (unfold rows; lia).
  destruct (sorted_spec it Hnd) as [Hsorted Hperm].
  assert (∀ c, c ∈ sorted it ↔ c ∈ it) as Hin by (intros; by rewrite Hperm).
  eexists _, _. split; [reflexivity|].
  unfold aligned, aligned_side. rewrite Hc1, Hc2.
  split_and!; try done.
  - intros c. by rewrite Hin, Hit.
  - unfold shape. by rewrite Hi1, Hc1, length_seq.
  - intros r c Hr Hc%Hin. by apply Hcell1.
  - unfold shape. by rewrite Hi2, Hc2, length_seq.
  - intros r c Hr Hc%Hin. by apply Hcell2.
Qed.


(** C3. [normalize_dataframes] returns two frames of one shape: both have
    as columns the union of the two column sets in ascending order of the
    labels, both have [max (len df1) (len df2)] rows, a row and column the
    input has keeps its cell, and every other cell, in a column the input
    lacks or in a row added at the end, is the empty string. *)
Theorem normalize_dataframes_aligns (df1 df2 : DataFrame) :
  grid_ok df1 → grid_ok df2 →
  ∃ n1 n2 cols,
    normalize_dataframes df1 df2 = Some (n1, n2)
    ∧ columns n1 = cols ∧ columns n2 = cols
    ∧ StronglySorted str_lt cols
    ∧ (∀ c, c ∈ cols ↔ c ∈ columns df1 ∨ c ∈ columns df2)
    ∧ shape n1 = (max (len df1) (len df2), length cols)
    ∧ shape n2 = (max (len df1) (len df2), length cols)
    ∧ index n1 = seq 0 (max (len df1) (len df2))
    ∧ index n2 = seq 0 (max (len df1) (len df2))
    ∧ frame_ok n1 ∧ frame_ok n2
    ∧ (∀ r c, r < max (len df1) (len df2) → c ∈ cols →
         cell_at n1 r c
         = if decide (r < len df1 ∧ c ∈ columns df1) then cell_at df1 r c
           else Some (CStr []))
    ∧ (∀ r c, r < max (len df1) (len df2) → c ∈ cols →
         cell_at n2 r c
         = if decide (r < len df2 ∧ c ∈ columns df2) then cell_at df2 r c
           else Some (CStr [])).
Proof.
  intros Hok1 Hok2.
  destruct (normalize_dataframes_spec df1 df2 Hok1 Hok2)
    as (n1 & n2 & Hn & Hcols & Hsorted & Hunion
        & (Hs1 & Hi1 & Hf1 & Hcell1) & (Hs2 & Hi2 & Hf2 & Hcell2)).
  exists n1, n2, (columns n1).
  rewrite Hcols in Hs2, Hcell2. by split_and!.
Qed.

(** The column order of the result depends on the two column sets only,
    not on the order the inputs list them in. *)
Lemma normalize_columns_canonical df1 df2 df1' df2' n1 n2 n1' n2' :
  grid_ok df1 → grid_ok df2 → grid_ok df1' → grid_ok df2' →
  (∀ c, c ∈ columns df1 ∨ c ∈ columns df2
        ↔ c ∈ columns df1' ∨ c ∈ columns df2') →
  normalize_dataframes df1 df2 = Some (n1, n2) →
  normalize_dataframes df1' df2' = Some (n1', n2') →
  columns n1 = columns n1' ∧ columns n2 = columns n1'.
Proof.
  intros Hok1 Hok2 Hok1' Hok2' Hsame Hn Hn'.
  destruct (normalize_dataframes_spec df1 df2 Hok1 Hok2)
    as (m1 & m2 & Hm & Hcols & Hsorted & Hunion & _).
  destruct (normalize_dataframes_spec df1' df2' Hok1' Hok2')
    as (m1' & m2' & Hm' & Hcols' & Hsorted' & Hunion' & _).
  rewrite Hn in Hm. rewrite Hn' in Hm'.
  injection Hm as <- <-. injection Hm' as <- <-.
  rewrite Hcols. split; apply StronglySorted_str_lt_unique; try done;
    intros c; by rewrite Hunion, Hunion', Hsame.
Qed.

End Alignment.

Lemma sample_base_ok : grid_ok sample_base.
Proof.
  split; [split; [done|]|].
  - repeat constructor.
  - by apply (bool_decide_unpack _); vm_compute.
Qed.

Lemma sample_target_ok : grid_ok sample_target.
Proof.
  split; [split; [done|]|].
  - repeat constructor.
  - by apply (bool_decide_unpack _); vm_compute.
Qed.

Lemma sample_empty_ok : grid_ok sample_empty.
Proof.
  split; [split; [done|]|].
  - constructor.
  - by apply (bool_decide_unpack _); vm_compute.
Qed.

(** The frames with columns [B, A] and [B, C] align to the columns
    [A, B, C]. *)
Lemma normalize_dataframes_aligns_witness :
  ∃ n1 n2,
    normalize_dataframes (SO:=elements_order) sample_base sample_target
    = Some (n1, n2)
    ∧ columns n1 = columns n2
    ∧ shape n1 = (2, length (columns n1))
    ∧ shape n2 = (2, length (columns n1)).
Proof.
  destruct (normalize_dataframes_aligns (SO:=elements_order)
              sample_base sample_target sample_base_ok sample_target_ok)
    as (n1 & n2 & cols & Hn & Hc1 & Hc2 & _ & _ & Hs1 & Hs2 & _).
  exists n1, n2. rewrite Hc1, Hc2. by split_and!.
Defined.

Example normalize_sample :
  normalize_dataframes (SO:=elements_order) sample_base sample_target
  = Some
      ({| columns := [lit "A"; lit "B"; lit "C"];
          index := [0; 1];
          values := [ [CStr (lit " x"); CStr (lit "foo "); CStr []];
                      [CStr (lit "a1"); CStr (lit "b1"); CStr []] ] |},
       {| columns := [lit "A"; lit "B"; lit "C"];
          index := [0; 1];
          values := [ [CStr []; CStr (lit "foo"); CStr (lit "c0")];
                      [CStr []; CStr []; CStr []] ] |}).
Proof. by vm_compute. Qed.

(** * Properties of the comparison *)

Section Comparison.
Context {RT : Runtime}.

(** A loop whose every step appends the records [g x] and counts them. *)
Lemma foldlM_records {A} (f : list CellDifference * Z → A
                                → option (list CellDifference * Z))
    (g : A → list CellDifference) (l : list A) ds n :
  (∀ x ds n, x ∈ l →
     f (ds, n) x = Some (ds ++ g x, (n + Z.of_nat (length (g x)))%Z)) →
  foldlM f (ds, n) l
  = Some (ds ++ (l ≫= g), (n + Z.of_nat (length (l ≫= g)))%Z).
Proof.
  revert ds n. induction l as [|x l IH]; intros ds n Hstep; simpl.
  { by rewrite app_nil_r, Z.add_0_r. }
  rewrite Hstep by left. simpl. rewrite IH.
  - change (list_bind _ _ g l) with (l ≫= g).
    f_equal. f_equal; [by rewrite <- app_assoc|]. rewrite length_app. lia.
  - intros y ds' n' Hy. apply Hstep. by right.
Qed.

Lemma length_bind_le {A B} (g : A → list B) (l : list A) :
  (∀ x, length (g x) ≤ 1) → length (l ≫= g) ≤ length l.
Proof.
  intros Hg. induction l as [|x l IH]; [done|].
  change (length (g x ++ (l ≫= g)) ≤ S (length l)).
  rewrite length_app. specialize (Hg x). lia.
Qed.

Lemma iloc_is_Some df r j :
  frame_ok df → r < len df → j < length (columns df) → is_Some (iloc df r j).
Proof.
  intros [Hlen Hrows] Hr Hj. unfold iloc, len in *.
  destruct (lookup_lt_is_Some_2 (values df) r) as [cells Hcells]; [lia|].
  rewrite Hcells. simpl. apply lookup_lt_is_Some.
  eapply Forall_lookup_1 in Hrows; [|done]. simpl in Hrows. lia.
Qed.

Lemma iloc_Some_lt df r j x :
  frame_ok df → iloc df r j = Some x → r < len df ∧ j < length (columns df).
Proof.
  intros [Hlen Hrows]. unfold iloc, len.
  destruct (values df !! r) as [cells|] eqn:Hcells; simpl; [|done].
  intros Hx. split.
  - apply lookup_lt_Some in Hcells. lia.
  - eapply Forall_lookup_1 in Hrows; [|done]. simpl in Hrows.
    apply lookup_lt_Some in Hx. lia.
Qed.

Lemma length_record_of self r c x1 x2 : length (record_of self r c x1 x2) ≤ 1.
Proof. unfold record_of. case_decide; simpl; lia. Qed.

Lemma length_cell_records self df1 df2 r c :
  length (cell_records self df1 df2 r c) ≤ 1.
Proof.
  unfold cell_records.
  destruct (iloc df1 r c.1), (iloc df2 r c.1); simpl;
    auto using length_record_of.
Qed.

Lemma compare_step_spec self df1 df2 r ds n c x1 x2 :
  iloc df1 r c.1 = Some x1 → iloc df2 r c.1 = Some x2 →
  compare_step self df1 df2 r (ds, n) c
  = Some (ds ++ record_of self r c x1 x2,
          (n + Z.of_nat (length (record_of self r c x1 x2)))%Z).
Proof.
  destruct c as [j name]. unfold compare_step. cbn [fst snd].
  intros -> ->. cbn [mbind option_bind].
  unfold compare_cells, record_of. cbv zeta.
  case_decide; cbn [negb fst snd length from_option].
  - by rewrite app_nil_r, Z.add_0_r.
  - reflexivity.
Qed.

Lemma compare_loop_spec self df1 df2 :
  frame_ok df1 → frame_ok df2 →
  len df2 = len df1 → length (columns df2) = length (columns df1) →
  compare_loop self df1 df2
  = Some (grid_records self df1 df2,
          Z.of_nat (length (grid_records self df1 df2))).
Proof.
  intros Hok1 Hok2 Hlen Hcols. unfold compare_loop, grid_records.
  cbn [shape fst]. fold (len df1).
  rewrite (foldlM_records _ (row_records self df1 df2)); [done|].
  intros r ds n Hr%elem_of_seq. unfold row_records.
  apply foldlM_records. intros [j name] ds' n' Hc.
  apply elem_of_lookup_imap in Hc as (j' & name' & [= <- <-] & Hj).
  apply lookup_lt_Some in Hj.
  destruct (iloc_is_Some df1 r j) as [x1 Hx1]; [done|lia|done|].
  destruct (iloc_is_Some df2 r j) as [x2 Hx2]; [done|lia|lia|].
  rewrite (compare_step_spec _ _ _ _ _ _ _ x1 x2) by done.
  unfold cell_records. cbn [fst]. by rewrite Hx1, Hx2.
Qed.

Lemma length_grid_records self df1 df2 :
  length (grid_records self df1 df2) ≤ len df1 * length (columns df1).
Proof.
  unfold grid_records.
  assert (∀ r, length (row_records self df1 df2 r) ≤ length (columns df1))
    as Hrow.
  { intros r. unfold row_records.
    etrans; [apply length_bind_le, length_cell_records|].
    by rewrite length_imap. }
  generalize (len df1). intros n. generalize 0.
  induction n as [|n IH]; intros s; [simpl; lia|].
  change (length (row_records self df1 df2 s
                  ++ (seq (S s) n ≫= row_records self df1 df2))
          ≤ S n * length (columns df1)).
  rewrite length_app. specialize (Hrow s). specialize (IH (S s)). lia.
Qed.

(** The records of the grid, one by one. *)
Lemma elem_of_grid_records self df1 df2 d :
  frame_ok df1 →
  d ∈ grid_records self df1 df2
  ↔ ∃ r j name x1 x2,
      columns df1 !! j = Some name
      ∧ iloc df1 r j = Some x1 ∧ iloc df2 r j = Some x2
      ∧ record_of self r (j, name) x1 x2 = [d].
Proof.
  intros Hok. unfold grid_records, row_records. split.
  - intros (r & Hd & Hr)%list_elem_of_bind.
    apply list_elem_of_bind in Hd as ([j name] & Hd & Hc).
    apply elem_of_lookup_imap in Hc as (j' & name' & [= <- <-] & Hj).
    unfold cell_records in Hd. cbn [fst] in Hd.
    destruct (iloc df1 r j) as [x1|] eqn:Hx1; [|by apply elem_of_nil in Hd].
    destruct (iloc df2 r j) as [x2|] eqn:Hx2; [|by apply elem_of_nil in Hd].
    exists r, j, name, x1, x2. split_and!; [done..|].
    unfold record_of in *. case_decide; [by apply elem_of_nil in Hd|].
    apply list_elem_of_singleton in Hd. by subst d.
  - intros (r & j & name & x1 & x2 & Hj & Hx1 & Hx2 & Hd).
    apply list_elem_of_bind. exists r. split.
    + apply list_elem_of_bind. exists (j, name). split.
      * unfold cell_records. cbn [fst]. rewrite Hx1, Hx2, Hd. by left.
      * apply elem_of_lookup_imap. eauto.
    + apply elem_of_seq. apply iloc_Some_lt in Hx1; [lia|done].
Qed.

(** The records of the grid are those of the positions that differ. *)
Lemma differs_cell_records self df1 df2 r j name :
  (λ d, (row d, col d)) <$> cell_records self df1 df2 r (j, name)
  = filter (differs self df1 df2) [(r, j)].
Proof.
  rewrite filter_cons, filter_nil. unfold cell_records.
  destruct (decide (differs self df1 df2 (r, j))) as [Hd|Hd];
    unfold differs in Hd; cbn [fst snd] in *;
    destruct (iloc df1 r j) as [x1|], (iloc df2 r j) as [x2|]; try done;
    unfold record_of; cbv zeta.
  - by rewrite decide_False.
  - rewrite decide_True; [done|].
    destruct (decide (preprocess self (str x1) = preprocess self (str x2)));
      done.
Qed.

Lemma differs_row_records self df1 df2 r (cols : list pystr) k :
  (λ d, (row d, col d))
    <$> (imap (λ i x, (k + i, x)) cols ≫= cell_records self df1 df2 r)
  = filter (differs self df1 df2) (pair r <$> seq k (length cols)).
Proof.
  revert k. induction cols as [|c cols IH]; intros k; [done|].
  cbn [imap length seq]. rewrite bind_cons, fmap_app, fmap_cons.
  change ((r, k) :: (pair r <$> seq (S k) (length cols)))
    with ([(r, k)] ++ (pair r <$> seq (S k) (length cols))).
  rewrite filter_app, Nat.add_0_r, differs_cell_records. f_equal.
  rewrite <- IH. f_equal. f_equal. apply imap_ext.
  intros i x _. cbn. f_equal. lia.
Qed.

Lemma differs_grid_records self df1 df2 :
  (λ d, (row d, col d)) <$> grid_records self df1 df2
  = filter (differs self df1 df2)
           (grid_positions (len df1) (length (columns df1))).
Proof.
  unfold grid_records, grid_positions. generalize (seq 0 (len df1)).
  intros rows. induction rows as [|r rows IH]; [done|].
  rewrite !bind_cons, fmap_app, filter_app, IH. f_equal.
  apply (differs_row_records self df1 df2 r (columns df1) 0).
Qed.

Lemma elem_of_grid_positions rows cols p :
  p ∈ grid_positions rows cols ↔ p.1 < rows ∧ p.2 < cols.
Proof.
  unfold grid_positions. rewrite list_elem_of_bind. split.
  - intros (r & Hp & Hr). apply list_elem_of_fmap in Hp as (j & -> & Hj).
    apply elem_of_seq in Hr, Hj. cbn. lia.
  - intros [Hr Hj]. exists p.1. split.
    + apply list_elem_of_fmap. exists p.2. split; [by destruct p|].
      apply elem_of_seq. lia.
    + apply elem_of_seq. lia.
Qed.

Lemma length_grid_positions rows cols :
  length (grid_positions rows cols) = rows * cols.
Proof.
  unfold grid_positions. generalize 0 at 2.
  induction rows as [|rows IH]; intros s; [done|].
  cbn [seq]. rewrite bind_cons, length_app, length_fmap, length_seq, IH.
  lia.
Qed.

Lemma length_filter_not {A} (P : A → Prop) `{!∀ x, Decision (P x)}
    (l : list A) :
  length (filter P l) + length (filter (λ x, ¬ P x) l) = length l.
Proof.
  induction l as [|x l IH]; [done|].
  rewrite !filter_cons. destruct (decide (P x)) as [Hx|Hx].
  - rewrite decide_False by tauto. cbn [length]. lia.
  - rewrite decide_True by done. cbn [length]. lia.
Qed.

End Comparison.

Section Files.
Context {RT : Runtime} {SO : SetOrder} {FS : Files}.

Lemma compare_files_load_fails self base target :
  load_csv target = None → compare_files self base target = None.
Proof.
  intros Ht. unfold compare_files.
  destruct (load_csv base); cbn [mbind option_bind]; [|done].
  by rewrite Ht.
Qed.

(** What [compare_files] returns on two readable files. *)
Lemma compare_files_spec self base target df1 df2 :
  readable base df1 → readable target df2 →
  ∃ r n1 n2,
    normalize_dataframes df1 df2 = Some (n1, n2)
    ∧ aligned df1 df2 n1 n2
    ∧ compare_files self base target = Some r
    ∧ cell_differences r = grid_records self n1 n2
    ∧ total_cells r = (Z.of_nat (len n1) * Z.of_nat (length (columns n1)))%Z
    ∧ different_cells r = Z.of_nat (length (grid_records self n1 n2))
    ∧ identical_cells r = (total_cells r - different_cells r)%Z
    ∧ similarity r
      = (if (0 <? total_cells r)%Z
         then inject_Z (identical_cells r) / inject_Z (total_cells r)
         else 0)%Q
    ∧ accuracy (summary r) = similarity r.
Proof.
  intros (Hl1 & Hok1 & [s1 Hs1] & [e1 He1]) (Hl2 & Hok2 & [s2 Hs2] & [e2 He2]).
  destruct (normalize_dataframes_spec df1 df2 Hok1 Hok2)
    as (n1 & n2 & Hn & Hal).
  pose proof Hal as (Hcols & _ & _ & (Hsh1 & _ & Hf1 & _) & (Hsh2 & _ & Hf2 & _)).
  assert (len n2 = len n1) as Hlen.
  { unfold shape in Hsh1, Hsh2. unfold len. congruence. }
  unfold compare_files. rewrite Hl1, Hl2. cbn [mbind option_bind].
  rewrite Hn. cbn [mbind option_bind].
  rewrite compare_loop_spec by (try done; by rewrite Hcols).
  cbn [mbind option_bind]. unfold file_info.
  rewrite Hs1, He1, Hs2, He2. cbn [mbind option_bind shape fst snd].
  fold (len n1).
  set (total := (Z.of_nat (len n1) * Z.of_nat (length (columns n1)))%Z).
  set (different := Z.of_nat (length (grid_records self n1 n2))).
  destruct (Z.ltb_spec 0 total) as [Hpos|Hzero].
  - unfold truediv. rewrite !decide_False by lia. cbn [mbind option_bind].
    eexists _, n1, n2. split_and!; try done; cbn.
    fold total. by rewrite (proj2 (Z.ltb_lt 0 total) Hpos).
  - cbn [mbind option_bind].
    eexists _, n1, n2. split_and!; try done; cbn.
    fold total. by rewrite (proj2 (Z.ltb_ge 0 total) Hzero).
Qed.

(** C4. With whitespace normalisation on, ["foo "] and ["foo"] compare
    equal and give no record; a record that is produced holds the two cell
    values as they stand in the aligned frames, not trimmed, and the
    string analysis inside it is the one of the preprocessed values. *)
Theorem compare_files_records_original self base target df1 df2 :
  readable base df1 → readable target df2 →
  ∃ r n1 n2,
    compare_files self base target = Some r
    ∧ normalize_dataframes df1 df2 = Some (n1, n2)
    ∧ (∀ d, d ∈ cell_differences r ↔
         ∃ r j name x1 x2,
           columns n1 !! j = Some name
           ∧ iloc n1 r j = Some x1 ∧ iloc n2 r j = Some x2
           ∧ preprocess self (str x1) ≠ preprocess self (str x2)
           ∧ d = {| row := r; col := j; col_name := name;
                    original := str x1;
                    target := str x2;
                    original_repr := repr (str x1);
                    target_repr := repr (str x2);
                    char_diff_positions :=
                      diff_positions
                        (analyze_difference (preprocess self (str x1))
                                            (preprocess self (str x2)));
                    unicode_analysis :=
                      Some (analyze_difference (preprocess self (str x1))
                                               (preprocess self (str x2))) |})
    ∧ (ignore_whitespace self = true →
       ∀ v, preprocess self v
            = if ignore_case self then lower (strip v) else strip v)
    ∧ (ignore_whitespace self = true →
       compare_cells self (lit "foo ") (lit "foo") = (true, None)).
Proof.
  intros Hb Ht.
  destruct (compare_files_spec self base target df1 df2 Hb Ht)
    as (r & n1 & n2 & Hn & Hal & Hr & Hds & _).
  destruct Hal as (_ & _ & _ & (_ & _ & Hf1 & _) & _).
  exists r, n1, n2. split_and!; [done..| | |].
  - intros d. rewrite Hds, elem_of_grid_records by done.
    unfold record_of. cbn [fst snd].
    split; intros (i & j & name & x1 & x2 & Hj & Hx1 & Hx2 & Hd);
      exists i, j, name, x1, x2.
    + case_decide; [done|]. split_and!; [done..|]. by injection Hd.
    + destruct Hd as [Hne ->]. by rewrite decide_False.
  - intros Hws v. unfold preprocess. by rewrite Hws.
  - intros Hws. unfold compare_cells, preprocess. rewrite Hws.
    replace (strip (lit "foo ")) with (strip (lit "foo")) by by vm_compute.
    by rewrite decide_True.
Qed.

(** C5. The similarity is the number of identical cells divided by the
    number of cells.  The cells number rows times columns of the aligned
    frames; the different cells are the positions of the grid at which the
    two aligned frames hold values that differ after preprocessing, each
    with its one record, and the identical cells are all the others.  With
    no cell at all the comparison still returns and the similarity is
    0. *)
Theorem compare_files_similarity self base target df1 df2 :
  readable base df1 → readable target df2 →
  ∃ r n1 n2,
    compare_files self base target = Some r
    ∧ normalize_dataframes df1 df2 = Some (n1, n2)
    ∧ total_cells r = (Z.of_nat (shape n1).1 * Z.of_nat (shape n1).2)%Z
    ∧ (∀ p, p ∈ grid_positions (shape n1).1 (shape n1).2 →
            is_Some (iloc n1 p.1 p.2) ∧ is_Some (iloc n2 p.1 p.2))
    ∧ (λ d, (row d, col d)) <$> cell_differences r
      = filter (differs self n1 n2)
               (grid_positions (shape n1).1 (shape n1).2)
    ∧ different_cells r
      = Z.of_nat (length (filter (differs self n1 n2)
                            (grid_positions (shape n1).1 (shape n1).2)))
    ∧ identical_cells r
      = Z.of_nat (length (filter (λ p, ¬ differs self n1 n2 p)
                            (grid_positions (shape n1).1 (shape n1).2)))
    ∧ different_cells r = Z.of_nat (length (cell_differences r))
    ∧ identical_cells r = (total_cells r - different_cells r)%Z
    ∧ (0 ≤ different_cells r ≤ total_cells r)%Z
    ∧ ((0 < total_cells r)%Z →
       truediv (identical_cells r) (total_cells r) = Some (similarity r)
       ∧ similarity r
         = (inject_Z (identical_cells r) / inject_Z (total_cells r))%Q)
    ∧ (total_cells r = 0%Z → similarity r = 0%Q).
Proof.
  intros Hb Ht.
  destruct (compare_files_spec self base target df1 df2 Hb Ht)
    as (r & n1 & n2 & Hn & Hal & Hr & Hds & Htot & Hdiff & Hid & Hsim & _).
  exists r, n1, n2. rewrite Hds.
  pose proof (length_grid_records self n1 n2) as Hle.
  pose proof (differs_grid_records self n1 n2) as Hpos.
  destruct Hal as (Hcols & _ & _ & (Hsh1 & _ & Hf1 & _) & (Hsh2 & _ & Hf2 & _)).
  assert (len n2 = len n1) as Hlen.
  { unfold shape in Hsh1, Hsh2. unfold len. congruence. }
  change (shape n1).1 with (len n1).
  change (shape n1).2 with (length (columns n1)).
  set (grid := grid_positions (len n1) (length (columns n1))) in *.
  assert (length (grid_records self n1 n2)
          = length (filter (differs self n1 n2) grid)) as Hcount.
  { by rewrite <- Hpos, length_fmap. }
  pose proof (length_filter_not (differs self n1 n2) grid) as Hsplit.
  unfold grid in Hsplit at 3. rewrite length_grid_positions in Hsplit.
  split_and!; try done.
  - intros p [Hp1 Hp2]%elem_of_grid_positions. split.
    + by apply iloc_is_Some.
    + apply iloc_is_Some; [done|by rewrite Hlen|by rewrite Hcols].
  - by rewrite Hdiff, Hcount.
  - rewrite Hid, Htot, Hdiff, Hcount. lia.
  - lia.
  - rewrite Hdiff, Htot. nia.
  - intros Hpos'. rewrite Hsim, (proj2 (Z.ltb_lt _ _) Hpos').
    split; [|done]. unfold truediv. by rewrite decide_False by lia.
  - intros Hzero. by rewrite Hsim, Hzero.
Qed.

Lemma dict_get_dict_set {K V} `{EqDecision K} (k k' : K) (v : V) d :
  dict_get k' (dict_set k v d)
  = if decide (k' = k) then Some v else dict_get k' d.
Proof.
  induction d as [|[k0 v0] d IH]; simpl.
  - by case_decide.
  - destruct (decide (k = k0)) as [->|Hne]; simpl.
    + destruct (decide (k' = k0)); done.
    + rewrite IH. destruct (decide (k' = k0)) as [->|]; [|done].
      by rewrite decide_False.
Qed.

Lemma dict_set_keys {K V} `{EqDecision K} (k : K) (v : V) d :
  (dict_set k v d).*1 = if decide (k ∈ d.*1) then d.*1 else d.*1 ++ [k].
Proof.
  induction d as [|[k0 v0] d IH]; [done|].
  cbn [dict_set]. rewrite fmap_cons. cbn [fst].
  destruct (decide (k = k0)) as [->|Hne].
  - rewrite fmap_cons. cbn [fst]. rewrite decide_True; [done|]. by left.
  - rewrite fmap_cons, IH. cbn [fst].
    destruct (decide (k ∈ d.*1)) as [Hin|Hnin].
    + rewrite decide_True; [done|]. by right.
    + rewrite decide_False; [done|].
      intros [?|?]%elem_of_cons; done.
Qed.

Lemma dict_set_fresh {K V} `{EqDecision K} (k : K) (v : V) d :
  k ∉ d.*1 → dict_set k v d = d ++ [(k, v)].
Proof.
  induction d as [|[k0 v0] d IH]; [done|].
  rewrite fmap_cons. cbn [fst dict_set].
  intros [Hne Hnin]%not_elem_of_cons.
  rewrite decide_False by done. by rewrite IH.
Qed.

Lemma batch_compare_foldl self base targets :
  batch_compare self base targets = foldl (batch_step self base) [] targets.
Proof.
  unfold batch_compare. generalize (@nil (pystr * option ComparisonResult)).
  induction targets as [|t targets IH]; intros acc; simpl; [done|].
  rewrite IH. f_equal. unfold batch_step.
  by destruct (compare_files self base t).
Qed.

Lemma batch_get self base targets acc t :
  dict_get t (foldl (batch_step self base) acc targets)
  = if decide (t ∈ targets) then Some (compare_files self base t)
    else dict_get t acc.
Proof.
  revert acc. induction targets as [|t' targets IH]; intros acc; cbn [foldl].
  - rewrite decide_False; [done|]. apply not_elem_of_nil.
  - rewrite IH. unfold batch_step. rewrite dict_get_dict_set.
    destruct (decide (t ∈ targets)) as [Hin|Hnin].
    + rewrite decide_True; [done|]. by right.
    + destruct (decide (t = t')) as [->|Hne].
      * rewrite decide_True; [done|]. by left.
      * rewrite decide_False; [done|]. intros [?|?]%elem_of_cons; done.
Qed.

Lemma batch_keys self base targets acc :
  (foldl (batch_step self base) acc targets).*1
  = foldl (λ keys k, if decide (k ∈ keys) then keys else keys ++ [k])
          (acc.*1) targets.
Proof.
  revert acc. induction targets as [|t targets IH]; intros acc; [done|].
  cbn [foldl]. rewrite IH. unfold batch_step. by rewrite dict_set_keys.
Qed.

Lemma batch_fresh self base targets acc :
  NoDup targets → (∀ t, t ∈ targets → t ∉ acc.*1) →
  foldl (batch_step self base) acc targets
  = acc ++ ((λ t, (t, compare_files self base t)) <$> targets).
Proof.
  revert acc. induction targets as [|t targets IH]; intros acc Hnd Hfresh; simpl.
  { by rewrite app_nil_r. }
  apply NoDup_cons in Hnd as [Ht Hnd].
  unfold batch_step at 2. rewrite dict_set_fresh by (apply Hfresh; by left).
  rewrite IH, <- app_assoc; [done..|].
  intros t' Ht'. rewrite fmap_app, elem_of_app. simpl.
  intros [Hin|Hin%list_elem_of_singleton].
  - apply (Hfresh t'); [by right|done].
  - by subst t'.
Qed.

(** C6. [batch_compare] compares every target with the same base and
    stores the outcome under the target; a comparison that raises, as when
    the target cannot be loaded, leaves [None] under that target and the
    loop goes on; the keys stand in the order the targets come in. *)
Theorem batch_compare_isolates_failures self base :
  (∀ targets t,
     t ∈ targets →
     dict_get t (batch_compare self base targets)
     = Some (compare_files self base t))
  ∧ (∀ targets t,
       t ∈ targets → load_csv t = None →
       dict_get t (batch_compare self base targets) = Some None)
  ∧ (∀ targets,
       (batch_compare self base targets).*1 = first_occurrences targets)
  ∧ (∀ targets,
       NoDup targets →
       batch_compare self base targets
       = (λ t, (t, compare_files self base t)) <$> targets)
  ∧ (∀ t1 t2 t3 r1 r3,
       NoDup [t1; t2; t3] →
       compare_files self base t1 = Some r1 →
       compare_files self base t2 = None →
       compare_files self base t3 = Some r3 →
       batch_compare self base [t1; t2; t3]
       = [(t1, Some r1); (t2, None); (t3, Some r3)]).
Proof.
  split_and!.
  - intros targets t Ht. rewrite batch_compare_foldl, batch_get.
    by rewrite decide_True.
  - intros targets t Ht Hload. rewrite batch_compare_foldl, batch_get.
    rewrite decide_True by done. by rewrite compare_files_load_fails.
  - intros targets. rewrite batch_compare_foldl. apply batch_keys.
  - intros targets Hnd. rewrite batch_compare_foldl, batch_fresh; [done..|].
    intros t _. apply not_elem_of_nil.
  - intros t1 t2 t3 r1 r3 Hnd H1 H2 H3.
    rewrite batch_compare_foldl, batch_fresh; [|done|].
    + simpl. by rewrite H1, H2, H3.
    + intros t _. apply not_elem_of_nil.
Qed.

End Files.

(** * The properties on the sample files *)

Lemma sample_base_readable :
  readable (FS:=sample_files) (lit "base.csv") sample_base.
Proof.
  split_and!; [by vm_compute|apply sample_base_ok|by eexists|by eexists].
Qed.

Lemma sample_target_readable :
  readable (FS:=sample_files) (lit "target.csv") sample_target.
Proof.
  split_and!; [by vm_compute|apply sample_target_ok|by eexists|by eexists].
Qed.

Lemma sample_empty_readable :
  readable (FS:=sample_files) (lit "empty.csv") sample_empty.
Proof.
  split_and!; [by vm_compute|apply sample_empty_ok|by eexists|by eexists].
Qed.

(** With trimming on, the cells ["foo "] and ["foo"] of column [B] give no
    record, and the record of column [A] shows [" x"] as it was read. *)
Lemma compare_files_records_original_witness :
  ∃ r,
    compare_files (RT:=ascii_runtime) (SO:=elements_order) (FS:=sample_files)
      trimming (lit "base.csv") (lit "target.csv") = Some r
    ∧ (λ d, (row d, col_name d, original d, target d)) <$> cell_differences r
      = [ (0, lit "A", lit " x", []);
          (0, lit "C", [], lit "c0");
          (1, lit "A", lit "a1", []);
          (1, lit "B", lit "b1", []) ].
Proof.
  destruct (compare_files_records_original
              (RT:=ascii_runtime) (SO:=elements_order) (FS:=sample_files)
              trimming (lit "base.csv") (lit "target.csv")
              sample_base sample_target
              sample_base_readable sample_target_readable)
    as (r & n1 & n2 & Hr & _).
  exists r. split; [exact Hr|].
  assert (∃ r',
            compare_files (RT:=ascii_runtime) (SO:=elements_order)
              (FS:=sample_files) trimming (lit "base.csv") (lit "target.csv")
            = Some r'
            ∧ (λ d, (row d, col_name d, original d, target d))
                <$> cell_differences r'
              = [ (0, lit "A", lit " x", []);
                  (0, lit "C", [], lit "c0");
                  (1, lit "A", lit "a1", []);
                  (1, lit "B", lit "b1", []) ]) as (r' & Hr' & Hrec).
  { eexists. split; vm_compute; reflexivity. }
  rewrite Hr in Hr'. injection Hr' as ->. exact Hrec.
Defined.

(** Two files of six cells of which four differ: similarity 2/6; and two
    files with a header and no row: no cell, similarity 0. *)
Lemma compare_files_similarity_witness :
  (∃ r,
     compare_files (RT:=ascii_runtime) (SO:=elements_order) (FS:=sample_files)
       trimming (lit "base.csv") (lit "target.csv") = Some r
     ∧ total_cells r = 6%Z ∧ different_cells r = 4%Z
     ∧ identical_cells r = 2%Z ∧ similarity r = (2 # 6)%Q)
  ∧ (∃ r,
       compare_files (RT:=ascii_runtime) (SO:=elements_order)
         (FS:=sample_files) trimming (lit "empty.csv") (lit "empty.csv")
       = Some r
       ∧ total_cells r = 0%Z ∧ similarity r = 0%Q).
Proof.
  split.
  - destruct (compare_files_similarity
                (RT:=ascii_runtime) (SO:=elements_order) (FS:=sample_files)
                trimming (lit "base.csv") (lit "target.csv")
                sample_base sample_target
                sample_base_readable sample_target_readable)
      as (r & n1 & n2 & Hr & Hn & Htot & _ & _ & Hdiff & Hsame & _ & _ & _
          & Hsim & _).
    exists r. split; [exact Hr|].
    vm_compute in Hn. injection Hn as <- <-.
    assert (total_cells r = 6%Z) as Htot' by (rewrite Htot; reflexivity).
    assert (different_cells r = 4%Z) as Hdiff'
      by (rewrite Hdiff; vm_compute; reflexivity).
    assert (identical_cells r = 2%Z) as Hsame'
      by (rewrite Hsame; vm_compute; reflexivity).
    split; [exact Htot'|]. split; [exact Hdiff'|]. split; [exact Hsame'|].
    destruct Hsim as [_ Hsim]; [rewrite Htot'; reflexivity|].
    rewrite Hsim, Hsame', Htot'. reflexivity.
  - destruct (compare_files_similarity
                (RT:=ascii_runtime) (SO:=elements_order) (FS:=sample_files)
                trimming (lit "empty.csv") (lit "empty.csv")
                sample_empty sample_empty
                sample_empty_readable sample_empty_readable)
      as (r & n1 & n2 & Hr & Hn & Htot & _ & _ & _ & _ & _ & _ & _ & _
          & Hzero).
    exists r. split; [exact Hr|].
    vm_compute in Hn. injection Hn as <- <-.
    split; [exact Htot|]. apply Hzero. exact Htot.
Defined.

Example compare_sample_counts :
  (λ r, (total_cells r, different_cells r, identical_cells r, similarity r))
    <$> compare_files (RT:=ascii_runtime) (SO:=elements_order)
          (FS:=sample_files) trimming (lit "base.csv") (lit "target.csv")
  = Some (6, 4, 2, 2 # 6)%Z.
Proof. by vm_compute. Qed.

(** A batch of three targets whose second cannot be loaded. *)
Example batch_sample :
  (λ p : pystr * option ComparisonResult, (p.1, similarity <$> p.2))
    <$> batch_compare (RT:=ascii_runtime) (SO:=elements_order)
          (FS:=sample_files) trimming (lit "base.csv")
          [lit "target.csv"; lit "missing.csv"; lit "empty.csv"]
  = [ (lit "target.csv", Some (2 # 6));
      (lit "missing.csv", None);
      (lit "empty.csv", Some (2 # 6)) ].
Proof. by vm_compute. Qed.

(** The diff of a composed and a decomposed accent: position 3 holds
    U+00E9 against [e], a [unicode_difference], and position 4 an
    insertion. *)
Example diff_cafe :
  (λ d, (position d, type d))
    <$> find_string_differences (RT:=ascii_runtime)
          [0x63; 0x61; 0x66; 0xE9]%N [0x63; 0x61; 0x66; 0x65; 0x301]%N
  = [(3, unicode_difference); (4, insertion)].
Proof. by vm_compute. Qed.

Example format_04X_samples :
  format_04X 0x20 = lit "0020" ∧ format_04X 0x2013 = lit "2013"
  ∧ format_04X 0x1F600 = lit "1F600" ∧ format_04X 0 = lit "0000".
Proof. by vm_compute. Qed.

Example strip_samples :
  strip (lit "  a b  ") = lit "a b" ∧ strip [0xA0; 0x41; 0x2003; 0x09]%N = [0x41%N]
  ∧ strip [0x200B; 0x41]%N = [0x200B; 0x41]%N ∧ strip (lit "   ") = [].
Proof. by vm_compute. Qed.

(** * Further properties of the analyzer *)

Example u8_samples :
  u8 "abc" = lit "abc" ∧ u8 "空字符串" = [0x7A7A; 0x5B57; 0x7B26; 0x4E32]%N
  ∧ u8 "é" = [0xE9%N] ∧ u8 "📊" = [0x1F4CA%N].
Proof. by vm_compute. Qed.

Example str_of_nat_samples :
  str_of_nat 0 = lit "0" ∧ str_of_nat 7 = lit "7" ∧ str_of_nat 10 = lit "10"
  ∧ str_of_nat 1234 = lit "1234".
Proof. by vm_compute. Qed.

Section AnalyzerMore.
Context {RT : Runtime}.

Lemma mismatches_nil_iff a b : mismatches a b = [] ↔ a = b.
Proof.
  split; [|intros ->; apply mismatches_refl].
  intros Hnil. apply list_eq. intros i.
  destruct (decide (i < max (length a) (length b))) as [Hi|Hi].
  - destruct (decide (a !! i = b !! i)) as [|Hne]; [done|].
    assert (i ∈ mismatches a b) as Hin.
    { apply list_elem_of_filter. split; [done|]. apply elem_of_seq. lia. }
    rewrite Hnil in Hin. by apply elem_of_nil in Hin.
  - rewrite !lookup_ge_None_2 by lia. done.
Qed.

Lemma diff_empty_iff_equal_aux (a b : pystr) :
  find_string_differences a b = [] ↔ a = b.
Proof.
  rewrite find_string_differences_eq, <- mismatches_nil_iff.
  split; [apply fmap_nil_inv|by intros ->].
Qed.

(** X1. The diff of two strings is empty exactly when the strings are
    equal; so [are_equal] is true exactly when [diff_count] is 0. *)
Theorem diff_empty_iff_equal (a b : pystr) :
  (find_string_differences a b = [] ↔ a = b)
  ∧ (are_equal (analyze_difference a b) = true
     ↔ diff_count (analyze_difference a b) = 0).
Proof.
  pose proof (diff_empty_iff_equal_aux a b) as Hiff.
  split; [done|]. cbn [are_equal diff_count analyze_difference].
  rewrite bool_decide_eq_true, <- Hiff.
  split; [by intros ->|apply nil_length_inv].
Qed.

Lemma classify_swap c1 c2 :
  c1 ≠ c2 →
  _classify_difference c2 c1 = swap_kind (_classify_difference c1 c2).
Proof.
  destruct c1 as [x|], c2 as [y|]; simpl; try done.
  intros _. rewrite (andb_comm (isspace y)), (orb_comm (isspace y)),
    (orb_comm (127 <? ord y)%N).
  destruct (isspace x), (isspace y), (127 <? ord x)%N, (127 <? ord y)%N; done.
Qed.

Lemma mismatches_swap a b : mismatches b a = mismatches a b.
Proof.
  unfold mismatches. rewrite (Nat.max_comm (length b)).
  apply list_filter_iff. intros i. split; intros Hne Heq; by apply Hne.
Qed.

(** X2. Exchanging the two strings keeps the positions of the differences
    and their kinds, except that insertions become deletions and deletions
    insertions; the characters and their descriptions change sides. *)
Theorem find_string_differences_swap (a b : pystr) :
  find_string_differences b a = swap_diff <$> find_string_differences a b.
Proof.
  rewrite !find_string_differences_eq, mismatches_swap, <- list_fmap_compose.
  apply list_fmap_ext. intros _ i Hi%list_elem_of_lookup_2.
  apply list_elem_of_filter in Hi as [Hne _].
  unfold diff_at, swap_diff. simpl. by rewrite classify_swap.
Qed.

Lemma count_kind_cons k d ds :
  count_kind k (d :: ds)
  = (if decide (type d = k) then 1 else 0) + count_kind k ds.
Proof. unfold count_kind. rewrite filter_cons. by case_decide. Qed.

Lemma count_kind_total ds :
  count_kind insertion ds + count_kind deletion ds
  + count_kind whitespace_substitution ds
  + count_kind whitespace_difference ds
  + count_kind unicode_difference ds
  + count_kind character_substitution ds
  = length ds.
Proof.
  induction ds as [|d ds IH]; [done|].
  rewrite !count_kind_cons. cbn [length]. rewrite <- IH.
  destruct (type d); repeat case_decide; try done; lia.
Qed.

Lemma count_types_step acc d k :
  dict_get k
    (let diff_types :=
       if dict_get (type d) acc is Some _ then acc
       else dict_set (type d) 0 acc in
     dict_set (type d) (default 0 (dict_get (type d) diff_types) + 1)
              diff_types)
  = if decide (k = type d) then Some (default 0 (dict_get k acc) + 1)
    else dict_get k acc.
Proof.
  cbv zeta. rewrite dict_get_dict_set.
  destruct (decide (k = type d)) as [->|Hne].
  - destruct (dict_get (type d) acc) as [v|] eqn:Hv; [by rewrite Hv|].
    rewrite dict_get_dict_set, decide_True by done. done.
  - destruct (dict_get (type d) acc); [done|].
    rewrite dict_get_dict_set. by rewrite decide_False.
Qed.

Lemma count_types_get_foldl ds acc k :
  dict_get k
    (foldl (λ diff_types diff,
              let diff_type := type diff in
              let diff_types :=
                if dict_get diff_type diff_types is Some _ then diff_types
                else dict_set diff_type 0 diff_types in
              dict_set diff_type
                (default 0 (dict_get diff_type diff_types) + 1) diff_types)
           acc ds)
  = if decide (count_kind k ds = 0) then dict_get k acc
    else Some (default 0 (dict_get k acc) + count_kind k ds).
Proof.
  revert acc. induction ds as [|d ds IH]; intros acc; [done|].
  cbn [foldl]. rewrite IH. cbv zeta. rewrite count_types_step.
  rewrite count_kind_cons.
  destruct (decide (k = type d)) as [->|Hne].
  - rewrite (decide_True (P:=type d = type d)) by done.
    rewrite (decide_False (P:=1 + _ = 0)) by lia.
    generalize (default 0 (dict_get (type d) acc)). intros v.
    case_decide as Hz; simpl; [rewrite Hz|]; f_equal; lia.
  - rewrite (decide_False (P:=type d = k)) by done. done.
Qed.

(** X3. The tally [diff_types] holds, for each kind that occurs among the
    differences, the number of its occurrences, and no entry for a kind
    that does not occur; the numbers add up to [diff_count]. *)
Theorem diff_types_tally (a b : pystr) :
  let r := analyze_difference a b in
  (∀ k, dict_get k (diff_types r)
        = if decide (count_kind k (differences r) = 0) then None
          else Some (count_kind k (differences r)))
  ∧ count_kind insertion (differences r) + count_kind deletion (differences r)
    + count_kind whitespace_substitution (differences r)
    + count_kind whitespace_difference (differences r)
    + count_kind unicode_difference (differences r)
    + count_kind character_substitution (differences r)
    = diff_count r.
Proof.
  cbv zeta. cbn [diff_types differences diff_count analyze_difference].
  split; [|apply count_kind_total].
  intros k. unfold count_types. by rewrite count_types_get_foldl.
Qed.

(** X4. The number of differences lies between the difference of the two
    lengths and the longer length, the diff never holds both insertions
    and deletions, and [length_diff] is the number of insertions minus the
    number of deletions. *)
Theorem diff_count_bounds (a b : pystr) :
  let r := analyze_difference a b in
  (Z.abs (Z.of_nat (length b) - Z.of_nat (length a))
   ≤ Z.of_nat (diff_count r) ≤ Z.of_nat (max (length a) (length b)))%Z
  ∧ (count_kind insertion (differences r) = 0
     ∨ count_kind deletion (differences r) = 0)
  ∧ length_diff r
    = (Z.of_nat (count_kind insertion (differences r))
       - Z.of_nat (count_kind deletion (differences r)))%Z.
Proof.
  cbv zeta. cbn [diff_count differences length_diff analyze_difference].
  pose proof (count_kind_total (find_string_differences a b)) as Htot.
  rewrite count_insertion, count_deletion in *.
  split_and!; [lia| |lia|lia].
  rewrite find_string_differences_eq, length_fmap. unfold mismatches.
  etrans; [apply Nat2Z.inj_le, length_filter|]. by rewrite length_seq.
Qed.

End AnalyzerMore.

Section SpecialChars.
Context {RT : Runtime}.

Lemma get_char_info_Some c :
  ∃ info, get_char_info (Some c) = Info info
    ∧ ci_char info = c
    ∧ ci_is_invisible info = negb (isprintable c) || in_special_chars c
    ∧ ci_name info = default [] (special_chars !! c)
    ∧ ci_hex info = lit "U+" ++ format_04X c.
Proof.
  unfold get_char_info.
  destruct (unicodedata_name c); eexists; (split; [reflexivity|]); done.
Qed.

Lemma find_special_chars_foldl (l : list (nat * N)) acc :
  foldl (λ special_chars '(i, char),
           if in_special_chars char || negb (isprintable char) then
             special_chars ++ [ {| sc_position := i;
                                   sc_char_info := get_char_info (Some char) |} ]
           else special_chars)
        acc l
  = acc ++ ((λ p, {| sc_position := p.1;
                     sc_char_info := get_char_info (Some p.2) |})
              <$> filter (λ p, in_special_chars p.2 || negb (isprintable p.2)
                               = true) l).
Proof.
  revert acc. induction l as [|[i c] l IH]; intros acc; cbn [foldl].
  { by rewrite filter_nil, app_nil_r. }
  rewrite IH, filter_cons. cbn [fst snd].
  destruct (in_special_chars c || negb (isprintable c)) eqn:Hc.
  - rewrite decide_True by done. by rewrite fmap_cons, <- app_assoc.
  - rewrite decide_False by done. done.
Qed.

Lemma find_special_chars_eq text :
  _find_special_chars text
  = (λ p, {| sc_position := p.1; sc_char_info := get_char_info (Some p.2) |})
      <$> filter (λ p, in_special_chars p.2 || negb (isprintable p.2) = true)
                 (imap pair text).
Proof. unfold _find_special_chars. by rewrite find_special_chars_foldl. Qed.

Lemma special_positions text :
  sc_position <$> _find_special_chars text
  = filter (special_at text) (seq 0 (length text)).
Proof.
  rewrite find_special_chars_eq, <- list_fmap_compose.
  induction text as [|c text IH] using rev_ind; [done|].
  rewrite imap_app, length_app, Nat.add_1_r, seq_S, !filter_app, fmap_app.
  rewrite IH. f_equal.
  - apply filter_ext_in. intros i Hi%elem_of_seq. unfold special_at.
    by rewrite lookup_app_l by lia.
  - cbn [imap]. rewrite !filter_cons, !filter_nil. cbn [fst snd plus].
    rewrite Nat.add_0_r.
    assert (special_at (text ++ [c]) (length text)
            ↔ in_special_chars c || negb (isprintable c) = true) as Hiff.
    { unfold special_at.
      by rewrite (list_lookup_middle text [] c (length text) eq_refl). }
    destruct (decide (special_at _ _)) as [Hs|Hs],
      (decide (_ = true)) as [Hb|Hb]; try done; tauto.
Qed.

(** X5. [_find_special_chars] reports exactly the indices whose character
    is a key of the curated table or is not printable, in increasing
    order, each with what [get_char_info] returns for the character at
    that index, and that description has [is_invisible] set. *)
Theorem find_special_chars_spec (text : pystr) :
  (∀ i, i ∈ sc_position <$> _find_special_chars text
        ↔ ∃ c, text !! i = Some c
               ∧ (is_Some (special_chars !! c) ∨ isprintable c = false))
  ∧ StronglySorted lt (sc_position <$> _find_special_chars text)
  ∧ Forall (λ sc, ∃ c info,
              text !! sc_position sc = Some c
              ∧ sc_char_info sc = get_char_info (Some c)
              ∧ sc_char_info sc = Info info
              ∧ ci_char info = c
              ∧ ci_is_invisible info = true)
           (_find_special_chars text).
Proof.
  split_and!.
  - intros i. rewrite special_positions, list_elem_of_filter, elem_of_seq.
    unfold special_at. split.
    + intros [Hsp _]. destruct (text !! i) as [c|]; [|done].
      exists c. split; [done|]. cbn [from_option] in Hsp.
      apply orb_true_iff in Hsp as [Hin|Hnp].
      * left. by apply bool_decide_eq_true in Hin.
      * right. by apply negb_true_iff.
    + intros (c & Hc & Hsp). rewrite Hc. cbn [from_option]. split.
      * apply orb_true_iff. destruct Hsp as [Hin|Hnp].
        -- left. by apply bool_decide_eq_true.
        -- right. by apply negb_true_iff.
      * apply lookup_lt_Some in Hc. lia.
  - rewrite special_positions.
    apply StronglySorted_filter, StronglySorted_lt_seq.
  - rewrite find_special_chars_eq. apply Forall_fmap, Forall_forall.
    intros [i c] [Hsp Hin]%list_elem_of_filter. cbn [fst snd] in *.
    apply elem_of_lookup_imap in Hin as (i' & c' & [= <- <-] & Hc).
    destruct (get_char_info_Some c) as (info & Hinfo & Hchar & Hinv & _).
    exists c, info. cbn [sc_char_info sc_position fst snd].
    rewrite Hinv. split_and!; [done..|].
    by rewrite orb_comm.
Qed.

End SpecialChars.

(** ** Hexadecimal code points *)

Lemma hex_digit_value d :
  (d < 16)%N →
  (if (hex_digit d <? 0x3A)%N then hex_digit d - 0x30 else hex_digit d - 0x37)%N
  = d.
Proof.
  intros Hd. unfold hex_digit.
  destruct (N.ltb_spec d 10).
  - rewrite (proj2 (N.ltb_lt _ _)) by lia. lia.
  - rewrite (proj2 (N.ltb_ge _ _)) by lia. lia.
Qed.

Lemma hex_value_from a ds :
  foldl (λ acc d, acc * 16 + (if (d <? 0x3A)%N then d - 0x30 else d - 0x37))%N
        a ds
  = (a * 16 ^ N.of_nat (length ds) + hex_value ds)%N.
Proof.
  unfold hex_value. revert a. induction ds as [|d ds IH]; intros a.
  { cbn [foldl length]. change (N.of_nat 0) with 0%N. rewrite N.pow_0_r. lia. }
  cbn [foldl length]. rewrite IH, (IH (0 * 16 + _)%N).
  rewrite Nat2N.inj_succ, N.pow_succ_r'. lia.
Qed.

Lemma hex_value_cons d ds :
  hex_value (d :: ds)
  = ((if (d <? 0x3A)%N then d - 0x30 else d - 0x37)
     * 16 ^ N.of_nat (length ds) + hex_value ds)%N.
Proof.
  unfold hex_value at 1. cbn [foldl]. rewrite hex_value_from. lia.
Qed.

Lemma hex_digits_value fuel n acc :
  (n < 16 ^ N.of_nat fuel)%N →
  hex_value (hex_digits fuel n acc)
  = (n * 16 ^ N.of_nat (length acc) + hex_value acc)%N.
Proof.
  revert n acc. induction fuel as [|fuel IH]; intros n acc Hn.
  { change (N.of_nat 0) with 0%N in Hn. rewrite N.pow_0_r in Hn.
    cbn [hex_digits]. assert (n = 0%N) as -> by lia. lia. }
  cbn [hex_digits]. cbv zeta.
  rewrite Nat2N.inj_succ, N.pow_succ_r' in Hn.
  pose proof (N.div_mod' n 16) as Hdm.
  pose proof (N.mod_lt n 16 ltac:(lia)) as Hmod.
  destruct (N.eqb_spec (n / 16) 0) as [Hz|Hnz].
  - rewrite hex_value_cons, hex_digit_value by done.
    rewrite Hz in Hdm. f_equal. f_equal. lia.
  - rewrite IH.
    + rewrite hex_value_cons, hex_digit_value by done. cbn [length].
      rewrite Nat2N.inj_succ, N.pow_succ_r'. lia.
    + apply N.Div0.div_lt_upper_bound. lia.
Qed.

Lemma hex_value_zeros k ds :
  hex_value (replicate k 0x30%N ++ ds) = hex_value ds.
Proof.
  induction k as [|k IH]; [done|].
  cbn [replicate app]. rewrite hex_value_cons, IH. cbn. lia.
Qed.

Lemma log2_fuel n : (n < 16 ^ N.of_nat (S (N.to_nat (N.log2 n))))%N.
Proof.
  rewrite Nat2N.inj_succ, N2Nat.id.
  destruct (N.eq_dec n 0%N) as [->|Hn].
  { cbn. lia. }
  pose proof (N.log2_spec n ltac:(lia)) as [_ Hlt].
  eapply N.lt_le_trans; [exact Hlt|].
  apply N.pow_le_mono_l. lia.
Qed.

Lemma format_04X_value n :
  hex_value (format_04X n) = n ∧ 4 ≤ length (format_04X n).
Proof.
  unfold format_04X. cbv zeta. split.
  - rewrite hex_value_zeros, hex_digits_value by apply log2_fuel.
    cbn. lia.
  - rewrite length_app, length_replicate. lia.
Qed.

Lemma hex_digit_upper d : (d < 16)%N → upper_hex_digit (hex_digit d).
Proof.
  intros Hd. unfold upper_hex_digit, hex_digit.
  destruct (N.ltb_spec d 10); lia.
Qed.

Lemma hex_digit_zero d : (d < 16)%N → hex_digit d = 0x30%N → d = 0%N.
Proof.
  intros Hd. unfold hex_digit. destruct (N.ltb_spec d 10); lia.
Qed.

Lemma hex_digits_upper fuel n acc :
  Forall upper_hex_digit acc → Forall upper_hex_digit (hex_digits fuel n acc).
Proof.
  revert n acc. induction fuel as [|fuel IH]; intros n acc Hacc; [done|].
  cbn [hex_digits]. cbv zeta.
  assert (Forall upper_hex_digit (hex_digit (n mod 16) :: acc)) as Hacc'.
  { constructor; [|done]. apply hex_digit_upper, N.mod_lt. lia. }
  destruct (n / 16 =? 0)%N; [done|]. by apply IH.
Qed.

(** The first digit written for a number other than 0 is not [0]. *)
Lemma hex_digits_head fuel n acc :
  n ≠ 0%N → (n < 16 ^ N.of_nat fuel)%N →
  ∃ d ds, hex_digits fuel n acc = d :: ds ∧ d ≠ 0x30%N.
Proof.
  revert n acc. induction fuel as [|fuel IH]; intros n acc Hn Hlt.
  { change (N.of_nat 0) with 0%N in Hlt. rewrite N.pow_0_r in Hlt. lia. }
  cbn [hex_digits]. cbv zeta.
  rewrite Nat2N.inj_succ, N.pow_succ_r' in Hlt.
  pose proof (N.div_mod' n 16) as Hdm.
  pose proof (N.mod_lt n 16 ltac:(lia)) as Hmod.
  destruct (N.eqb_spec (n / 16) 0) as [Hz|Hnz].
  - eexists _, _. split; [done|].
    intros Hd%hex_digit_zero; [|done]. rewrite Hz in Hdm. lia.
  - apply IH; [done|]. apply N.Div0.div_lt_upper_bound. lia.
Qed.

Lemma format_04X_digits n :
  Forall upper_hex_digit (format_04X n)
  ∧ (4 < length (format_04X n) → head (format_04X n) ≠ Some 0x30%N).
Proof.
  unfold format_04X. cbv zeta.
  set (ds := hex_digits (S (N.to_nat (N.log2 n))) n []). split.
  - apply Forall_app. split.
    + apply Forall_replicate. left. lia.
    + apply hex_digits_upper. constructor.
  - rewrite length_app, length_replicate. intros Hlen.
    replace (4 - length ds) with 0 by lia. cbn [replicate app].
    destruct (N.eq_dec n 0%N) as [->|Hn].
    { vm_compute in ds. subst ds. cbn [length] in Hlen. lia. }
    destruct (hex_digits_head (S (N.to_nat (N.log2 n))) n [] Hn (log2_fuel n))
      as (d & ds' & Hds & Hd).
    fold ds in Hds. rewrite Hds. cbn [head]. congruence.
Qed.

(** X7. The [hex] field of a character's description is [U+] followed by
    at least four upper-case hexadecimal digits, padded with [0] to four
    and with no leading [0] beyond that, and the digits denote the code
    point held in the [ord] field. *)
Theorem get_char_info_hex {RT : Runtime} (c : pychar) :
  ∃ info digits,
    get_char_info (Some c) = Info info
    ∧ ci_hex info = lit "U+" ++ digits
    ∧ Forall upper_hex_digit digits
    ∧ 4 ≤ length digits
    ∧ (4 < length digits → head digits ≠ Some 0x30%N)
    ∧ hex_value digits = ci_ord info
    ∧ ci_ord info = c.
Proof.
  unfold get_char_info.
  destruct (unicodedata_name c); eexists _, (format_04X c);
    (split; [reflexivity|]); cbn [ci_hex ci_ord]; unfold ord;
    pose proof (format_04X_value c) as [-> ?];
    pose proof (format_04X_digits c) as [? ?]; done.
Qed.

(** ** The character map *)

Section CharMap.
Context {RT : Runtime}.

Lemma visible_iff c :
  visible c ↔ negb (isprintable c) || in_special_chars c = false.
Proof.
  unfold visible, in_special_chars.
  rewrite orb_false_iff, negb_false_iff, bool_decide_eq_false.
  by rewrite eq_None_not_Some.
Qed.

Lemma char_display_spec i c :
  ∃ d, char_display i c = Some d
    ∧ (visible c → d = [c])
    ∧ (¬ visible c → 2 ≤ length d).
Proof.
  unfold char_display.
  destruct (get_char_info_Some c) as (info & -> & _ & Hinv & _).
  rewrite Hinv. destruct (negb (isprintable c) || in_special_chars c) eqn:Hc.
  - eexists. split; [done|]. split.
    + intros Hv%visible_iff. congruence.
    + intros _. rewrite !length_app. cbn [lit length fmap list_fmap
        String.list_ascii_of_string]. lia.
  - eexists. split; [done|]. split; [done|].
    intros Hv. exfalso. by apply Hv, visible_iff.
Qed.

Lemma char_map_foldlM (l : list (nat * N)) (acc : list (list N)) :
  ∃ ds,
    foldlM (λ (char_map : list (list N)) '(i, char),
              display ← char_display i char;
              Some (char_map ++ [display]))
           acc l
    = Some (acc ++ ds)
    ∧ Forall2 (λ p d, (visible p.2 → d = [p.2])
                      ∧ (¬ visible p.2 → 2 ≤ length d)) l ds.
Proof.
  revert acc. induction l as [|[i c] l IH]; intros acc.
  { exists []. by rewrite app_nil_r. }
  cbn [foldlM].
  destruct (char_display_spec i c) as (d & -> & Hv & Hnv).
  cbn [mbind option_bind].
  destruct (IH (acc ++ [d])) as (ds & -> & Hds).
  exists (d :: ds). rewrite <- app_assoc. split; [done|].
  by constructor.
Qed.

Lemma mjoin_displays (l : list (nat * N)) (ds : list (list N)) :
  Forall2 (λ p d, (visible p.2 → d = [p.2])
                  ∧ (¬ visible p.2 → 2 ≤ length d)) l ds →
  length l ≤ length (mjoin ds)
  ∧ (Forall (λ p, visible p.2) l → mjoin ds = l.*2)
  ∧ (length (mjoin ds) = length l → Forall (λ p, visible p.2) l).
Proof.
  induction 1 as [|p d l ds [Hv Hnv] _ (IHle & IHv & IHeq)].
  { by split_and!. }
  change (mjoin (d :: ds)) with (d ++ mjoin ds). rewrite length_app.
  cbn [length]. destruct (decide (visible p.2)) as [Hvis|Hvis].
  - rewrite (Hv Hvis). cbn [length]. split_and!.
    + lia.
    + intros [_ Hall]%Forall_cons. rewrite fmap_cons. cbn [app].
      by rewrite IHv.
    + intros Hlen. constructor; [done|]. apply IHeq. lia.
  - specialize (Hnv Hvis). split_and!.
    + lia.
    + by intros [? _]%Forall_cons.
    + intros Hlen. lia.
Qed.

Lemma imap_pair_snd {A} (l : list A) : (imap pair l).*2 = l.
Proof.
  induction l as [|x l IH] using rev_ind; [done|].
  rewrite imap_app, fmap_app, IH. done.
Qed.

(** X6. [generate_char_map] always returns a string and never the empty
    one; on a non-empty text it returns the text unchanged exactly when
    every character is printable and not a key of the curated table. *)
Theorem generate_char_map_spec (text : pystr) :
  (∃ out, generate_char_map text = Some out ∧ out ≠ [])
  ∧ (generate_char_map text = Some text
     ↔ text ≠ [] ∧ Forall visible text).
Proof.
  destruct text as [|c text].
  { split; [by eexists|]. split; [done|]. by intros [? _]. }
  unfold generate_char_map.
  destruct (char_map_foldlM (imap pair (c :: text)) [])
    as (ds & -> & Hds).
  cbn [mbind option_bind app].
  destruct (mjoin_displays _ _ Hds) as (Hle & Hvis & Heq).
  rewrite length_imap in Hle, Heq. rewrite imap_pair_snd in Hvis.
  assert (Forall (λ p : nat * N, visible p.2) (imap pair (c :: text))
          ↔ Forall visible (c :: text)) as Hall.
  { rewrite <- (imap_pair_snd (c :: text)) at 2. by rewrite Forall_fmap. }
  split.
  - eexists. split; [done|]. intros Hnil. rewrite Hnil in Hle.
    cbn [length] in Hle. lia.
  - split.
    + intros [= Hout]. split; [done|]. apply Hall, Heq. by rewrite Hout.
    + intros [_ Hv]. f_equal. by apply Hvis, Hall.
Qed.

End CharMap.

(** * Further properties of the comparator *)

(** ** Comparing two cells *)

Lemma lstrip_spaces ws s : Forall (λ c, isspace c = true) ws →
  lstrip (ws ++ s) = lstrip s.
Proof.
  induction 1 as [|c ws Hc _ IH]; [done|].
  cbn [app lstrip]. by rewrite Hc.
Qed.

Lemma lstrip_app_spaces s ws : Forall (λ c, isspace c = true) ws →
  lstrip (s ++ ws) = if decide (lstrip s = []) then [] else lstrip s ++ ws.
Proof.
  intros Hws. induction s as [|c s IH].
  - cbn [app lstrip]. rewrite decide_True by done.
    rewrite <- (app_nil_r ws). by rewrite lstrip_spaces.
  - cbn [app lstrip]. destruct (isspace c); [done|].
    by rewrite decide_False.
Qed.

Lemma rstrip_spaces s ws : Forall (λ c, isspace c = true) ws →
  rstrip (s ++ ws) = rstrip s.
Proof.
  intros Hws. unfold rstrip. rewrite reverse_app, lstrip_spaces; [done|].
  by apply Forall_reverse.
Qed.

Lemma rstrip_nil : rstrip [] = [].
Proof. done. Qed.

Lemma strip_padding ws1 v ws2 :
  Forall (λ c, isspace c = true) ws1 → Forall (λ c, isspace c = true) ws2 →
  strip (ws1 ++ v ++ ws2) = strip v.
Proof.
  intros H1 H2. unfold strip.
  rewrite lstrip_spaces, lstrip_app_spaces by done.
  case_decide as Hv; [by rewrite Hv|]. by rewrite rstrip_spaces.
Qed.

Section Cells.
Context {RT : Runtime}.

(** X8. [compare_cells] reports two values as the same exactly when they
    are equal after preprocessing; then it returns no analysis.  Otherwise
    it returns the analysis of the two preprocessed values, which has
    [are_equal] false and at least one difference.  The verdict does not
    depend on the order of the two values. *)
Theorem compare_cells_spec (self : CSVComparator) (val1 val2 : pystr) :
  ((compare_cells self val1 val2).1 = true
   ↔ preprocess self val1 = preprocess self val2)
  ∧ (compare_cells self val2 val1).1 = (compare_cells self val1 val2).1
  ∧ ((compare_cells self val1 val2).1 = true →
     (compare_cells self val1 val2).2 = None)
  ∧ ((compare_cells self val1 val2).1 = false →
     ∃ an, (compare_cells self val1 val2).2 = Some an
       ∧ an = analyze_difference (preprocess self val1) (preprocess self val2)
       ∧ are_equal an = false
       ∧ 0 < diff_count an).
Proof.
  unfold compare_cells. cbv zeta.
  destruct (decide (preprocess self val1 = preprocess self val2)) as [Heq|Hne].
  - rewrite decide_True by done. cbn [fst snd]. by split_and!.
  - rewrite decide_False by (intros Heq; by apply Hne).
    cbn [fst snd]. split_and!; [split; done|done|done|].
    intros _. eexists. split; [done|]. split; [done|].
    unfold analyze_character_difference.
    pose proof (diff_empty_iff_equal_aux (preprocess self val1)
                  (preprocess self val2)) as Hiff.
    cbn [are_equal diff_count analyze_difference]. split.
    + by apply bool_decide_eq_false.
    + destruct (find_string_differences _ _) eqn:Hd; [|cbn; lia].
      exfalso. by apply Hne, Hiff.
Qed.

(** X9. With [ignore_whitespace] set, whitespace around a value does not
    count: padding either value on either side with whitespace characters
    leaves the outcome of [compare_cells] unchanged. *)
Theorem compare_cells_ignores_padding (self : CSVComparator)
    (val1 val2 l1 r1 l2 r2 : pystr) :
  ignore_whitespace self = true →
  Forall (λ c, isspace c = true) (l1 ++ r1 ++ l2 ++ r2) →
  compare_cells self (l1 ++ val1 ++ r1) (l2 ++ val2 ++ r2)
  = compare_cells self val1 val2.
Proof.
  intros Hws Hsp.
  apply Forall_app in Hsp as [Hl1 Hsp]. apply Forall_app in Hsp as [Hr1 Hsp].
  apply Forall_app in Hsp as [Hl2 Hr2].
  unfold compare_cells, preprocess. rewrite Hws.
  by rewrite !strip_padding.
Qed.

End Cells.

Lemma compare_cells_ignores_padding_witness :
  compare_cells (RT:=ascii_runtime) trimming
    (lit "  " ++ lit "a b" ++ lit " ") ([] ++ lit "a b" ++ [0x09; 0xA0]%N)
  = compare_cells (RT:=ascii_runtime) trimming (lit "a b") (lit "a b").
Proof.
  apply (compare_cells_ignores_padding (RT:=ascii_runtime) trimming);
    [reflexivity|].
  repeat constructor.
Defined.

(** ** Aligning frames *)

Section AlignmentMore.
Context {SO : SetOrder}.

Lemma normalize_swap (df1 df2 : DataFrame) :
  normalize_dataframes df2 df1
  = (λ p, (p.2, p.1)) <$> normalize_dataframes df1 df2.
Proof.
  unfold normalize_dataframes.
  rewrite (union_comm_L (list_to_set (columns df2))).
  rewrite !foldl_add_missing.
  destruct (reindex (foldl add_missing1 df1 _) _) as [r1|],
    (reindex (foldl add_missing1 df2 _) _) as [r2|];
    cbn [mbind option_bind fmap option_fmap option_map fst snd]; try done.
  by rewrite (Nat.max_comm (len r2)).
Qed.

(** X10. [normalize_dataframes] treats its two arguments alike: with the
    arguments exchanged it returns the same two frames, exchanged. *)
Theorem normalize_dataframes_swap (df1 df2 : DataFrame) :
  normalize_dataframes df2 df1
  = (λ p, (p.2, p.1)) <$> normalize_dataframes df1 df2.
Proof. apply normalize_swap. Qed.

Lemma foldl_add_missing1_id df it :
  (∀ c, c ∈ it → c ∈ columns df) → foldl add_missing1 df it = df.
Proof.
  induction it as [|c it IH]; intros Hsub; [done|].
  cbn [foldl]. unfold add_missing1 at 2.
  rewrite decide_False by (intros Hn; apply Hn, Hsub; by left).
  apply IH. intros c' Hc'. apply Hsub. by right.
Qed.

Lemma reset_index_id df :
  index df = seq 0 (len df) → reset_index df = df.
Proof.
  destruct df as [cols idx vals]. unfold reset_index, len. simpl.
  intros Hidx. f_equal. by rewrite Hidx at 2.
Qed.

Lemma aligned_again df1 df2 n1 n2 :
  aligned df1 df2 n1 n2 → normalize_dataframes n1 n2 = Some (n1, n2).
Proof.
  intros (Hcols & Hsorted & _ & (Hs1 & Hi1 & _) & (Hs2 & Hi2 & _)).
  unfold normalize_dataframes. rewrite Hcols, union_idemp_L.
  set (it := set_iter (list_to_set (columns n1))).
  assert (∀ c, c ∈ it ↔ c ∈ columns n1) as Hit.
  { intros c. unfold it. by rewrite elem_of_set_iter, elem_of_list_to_set. }
  rewrite foldl_add_missing.
  rewrite !foldl_add_missing1_id
    by (intros c Hc%Hit; by rewrite ?Hcols).
  assert (sorted it = columns n1) as Hsame.
  { destruct (sorted_spec it (set_iter_NoDup _)) as [Hs Hp].
    apply StronglySorted_str_lt_unique; [done..|].
    intros c. by rewrite Hp, Hit. }
  unfold reindex. rewrite Hsame, Hcols, !decide_True by done.
  cbn [mbind option_bind].
  assert (len n1 = len n2) as Hlen.
  { unfold len. by rewrite Hi1, Hi2, !length_seq. }
  unfold pad_rows. rewrite <- Hlen, Nat.max_id.
  rewrite !decide_False by lia.
  rewrite !reset_index_id; [done|..]; unfold len.
  - by rewrite Hi2, length_seq.
  - by rewrite Hi1, length_seq.
Qed.

(** X11. Aligning is idempotent: two frames that [normalize_dataframes]
    has returned are returned unchanged when aligned again. *)
Theorem normalize_dataframes_idempotent (df1 df2 n1 n2 : DataFrame) :
  grid_ok df1 → grid_ok df2 →
  normalize_dataframes df1 df2 = Some (n1, n2) →
  normalize_dataframes n1 n2 = Some (n1, n2).
Proof.
  intros Hok1 Hok2 Hn.
  destruct (normalize_dataframes_spec df1 df2 Hok1 Hok2)
    as (m1 & m2 & Hm & Hal).
  rewrite Hn in Hm. injection Hm as <- <-. by eapply aligned_again.
Qed.

Lemma cell_at_elem df r c x :
  cell_at df r c = Some x → x ∈ cells df.
Proof.
  unfold cell_at, cells, row_get.
  destruct (values df !! r) as [row|] eqn:Hrow; [|done].
  cbn [mbind option_bind].
  destruct (get_loc c (columns df)) as [j|]; [|done].
  cbn [mbind option_bind]. intros Hx.
  apply list_elem_of_join. exists row.
  eauto using list_elem_of_lookup_2.
Qed.

Lemma elem_cell_at df x :
  grid_ok df → x ∈ cells df →
  ∃ r c, r < len df ∧ c ∈ columns df ∧ cell_at df r c = Some x.
Proof.
  intros [[Hlen Hrows] Hnd] (row & Hx & Hrow)%list_elem_of_join.
  apply list_elem_of_lookup in Hrow as [r Hr].
  apply list_elem_of_lookup in Hx as [j Hj].
  assert (length row = length (columns df)) as Hrl.
  { eapply Forall_lookup_1 in Hrows; done. }
  destruct (lookup_lt_is_Some_2 (columns df) j) as [c Hc].
  { rewrite <- Hrl. by eapply lookup_lt_Some. }
  exists r, c. split_and!.
  - unfold len. rewrite <- Hlen. by eapply lookup_lt_Some.
  - by eapply list_elem_of_lookup_2.
  - unfold cell_at, row_get. rewrite Hr. cbn [mbind option_bind].
    destruct (get_loc c (columns df)) as [j'|] eqn:Hj'.
    + apply get_loc_lookup in Hj'.
      assert (j' = j) as -> by (eapply NoDup_lookup; done). done.
    + apply get_loc_None in Hj'. exfalso. apply Hj'.
      by eapply list_elem_of_lookup_2.
Qed.

Lemma aligned_side_cells df n rows x :
  grid_ok df → aligned_side df n rows → NoDup (columns n) →
  x ∈ cells n → x ∈ cells df ∨ x = CStr [].
Proof.
  intros Hok (Hsh & Hidx & Hfok & Hcell) Hnd Hx.
  destruct (elem_cell_at n x) as (r & c & Hr & Hc & Hat); [done..|].
  rewrite Hcell in Hat; [|unfold len in Hr; by rewrite Hidx, length_seq in Hr|done].
  case_decide.
  - left. by eapply cell_at_elem.
  - right. by injection Hat.
Qed.

Lemma StronglySorted_str_lt_NoDup l : StronglySorted str_lt l → NoDup l.
Proof.
  induction 1 as [|x l Hl IH Hx]; constructor; [|done].
  intros Hin. eapply Forall_forall in Hx; [|done]. by destruct Hx.
Qed.

(** X12. Aligning invents no value: every cell of a returned frame is a
    cell of the corresponding input frame or the empty string.  So frames
    without a missing value align to frames without a missing value. *)
Theorem normalize_dataframes_cells (df1 df2 n1 n2 : DataFrame) :
  grid_ok df1 → grid_ok df2 →
  normalize_dataframes df1 df2 = Some (n1, n2) →
  (∀ x, x ∈ cells n1 → x ∈ cells df1 ∨ x = CStr [])
  ∧ (∀ x, x ∈ cells n2 → x ∈ cells df2 ∨ x = CStr [])
  ∧ (CNaN ∉ cells df1 → CNaN ∉ cells n1)
  ∧ (CNaN ∉ cells df2 → CNaN ∉ cells n2).
Proof.
  intros Hok1 Hok2 Hn.
  destruct (normalize_dataframes_spec df1 df2 Hok1 Hok2)
    as (m1 & m2 & Hm & Hcols & Hsorted & _ & Hside1 & Hside2).
  rewrite Hn in Hm. injection Hm as <- <-.
  pose proof (StronglySorted_str_lt_NoDup _ Hsorted) as Hnd.
  assert (∀ x, x ∈ cells n1 → x ∈ cells df1 ∨ x = CStr []) as H1.
  { intros x. by eapply aligned_side_cells. }
  assert (∀ x, x ∈ cells n2 → x ∈ cells df2 ∨ x = CStr []) as H2.
  { intros x. eapply aligned_side_cells; [done..|]. by rewrite Hcols. }
  split_and!; [done..| |].
  - intros Hno Hin. by destruct (H1 _ Hin).
  - intros Hno Hin. by destruct (H2 _ Hin).
Qed.

End AlignmentMore.

Lemma normalize_dataframes_idempotent_witness :
  ∃ n1 n2,
    normalize_dataframes (SO:=elements_order) sample_base sample_target
    = Some (n1, n2)
    ∧ normalize_dataframes (SO:=elements_order) n1 n2 = Some (n1, n2).
Proof.
  eexists _, _. split; [by vm_compute|].
  eapply (normalize_dataframes_idempotent (SO:=elements_order)
            sample_base sample_target);
    [apply sample_base_ok|apply sample_target_ok|by vm_compute].
Defined.

Lemma normalize_dataframes_cells_witness :
  ∃ n1 n2,
    normalize_dataframes (SO:=elements_order) sample_base sample_target
    = Some (n1, n2)
    ∧ (CNaN ∉ cells sample_base → CNaN ∉ cells n1).
Proof.
  eexists _, _. split; [by vm_compute|].
  eapply (normalize_dataframes_cells (SO:=elements_order)
            sample_base sample_target);
    [apply sample_base_ok|apply sample_target_ok|by vm_compute].
Defined.

(** ** Comparing two files *)

Lemma ratio_facts (i t : Z) :
  (0 < t)%Z → (0 ≤ i ≤ t)%Z →
  (0 <= inject_Z i / inject_Z t)%Q
  ∧ (inject_Z i / inject_Z t <= 1)%Q
  ∧ ((inject_Z i / inject_Z t == 1)%Q ↔ i = t)
  ∧ (inject_Z i / inject_Z t + inject_Z (t - i) / inject_Z t == 1)%Q.
Proof.
  intros Ht Hi. destruct t as [|p|p]; try lia.
  unfold Qle, Qeq, Qdiv, Qmult, Qinv, Qplus, inject_Z.
  cbn [Qnum Qden]. rewrite ?Pos.mul_1_l, ?Z.mul_1_r, ?Z.mul_1_l.
  cbn [Qnum Qden Z.mul]. rewrite ?Pos.mul_1_l, ?Z.mul_1_r, ?Z.mul_1_l.
  split_and!; nia.
Qed.

Section FilesMore.
Context {RT : Runtime} {SO : SetOrder} {FS : Files}.

(** The result of [compare_files] on two readable files, field by field. *)
Lemma compare_files_result self base target df1 df2 :
  readable base df1 → readable target df2 →
  ∃ n1 n2 s1 e1 s2 e2,
    normalize_dataframes df1 df2 = Some (n1, n2)
    ∧ aligned df1 df2 n1 n2
    ∧ stat_size base = Some s1 ∧ detect_encoding base = Some e1
    ∧ stat_size target = Some s2 ∧ detect_encoding target = Some e2
    ∧ let total := (Z.of_nat (len n1) * Z.of_nat (length (columns n1)))%Z in
      let different := Z.of_nat (length (grid_records self n1 n2)) in
      let sim := (if (0 <? total)%Z
                  then inject_Z (total - different) / inject_Z total
                  else 0)%Q in
      let rate := (if (0 <? total)%Z
                   then inject_Z different / inject_Z total
                   else 0)%Q in
      compare_files self base target
      = Some {| similarity := sim;
                total_cells := total;
                different_cells := different;
                identical_cells := (total - different)%Z;
                cell_differences := grid_records self n1 n2;
                base_file_info :=
                  {| fi_path := base; fi_size := s1; fi_rows := len n1;
                     fi_columns := length (columns n1); fi_encoding := e1 |};
                target_file_info :=
                  {| fi_path := target; fi_size := s2; fi_rows := len n2;
                     fi_columns := length (columns n2); fi_encoding := e2 |};
                summary := {| accuracy := sim;
                              summary_total_cells := total;
                              summary_identical_cells := (total - different)%Z;
                              summary_different_cells := different;
                              difference_rate := rate |} |}.
Proof.
  intros (Hl1 & Hok1 & [s1 Hs1] & [e1 He1]) (Hl2 & Hok2 & [s2 Hs2] & [e2 He2]).
  destruct (normalize_dataframes_spec df1 df2 Hok1 Hok2)
    as (n1 & n2 & Hn & Hal).
  pose proof Hal as (Hcols & _ & _ & (Hsh1 & _ & Hf1 & _) & (Hsh2 & _ & Hf2 & _)).
  assert (len n2 = len n1) as Hlen.
  { unfold shape in Hsh1, Hsh2. unfold len. congruence. }
  exists n1, n2, s1, e1, s2, e2. split_and!; [done..|]. cbv zeta.
  unfold compare_files. rewrite Hl1, Hl2. cbn [mbind option_bind].
  rewrite Hn. cbn [mbind option_bind].
  rewrite compare_loop_spec by (try done; by rewrite Hcols).
  cbn [mbind option_bind]. unfold file_info.
  rewrite Hs1, He1, Hs2, He2. cbn [mbind option_bind shape fst snd].
  fold (len n1).
  destruct (Z.ltb_spec 0 (Z.of_nat (len n1) * Z.of_nat (length (columns n1))))
    as [Hpos|Hzero]; [|done].
  unfold truediv. rewrite !decide_False by lia. done.
Qed.

Lemma bind_all_nil {A B} (f : A → list B) (l : list A) :
  (∀ x, f x = []) → l ≫= f = [].
Proof.
  intros Hf. induction l as [|x l IH]; [done|].
  change (f x ++ (l ≫= f) = []). by rewrite Hf, IH.
Qed.

Lemma grid_records_same self n : grid_records self n n = [].
Proof.
  unfold grid_records. apply bind_all_nil. intros r.
  unfold row_records. apply bind_all_nil. intros c.
  unfold cell_records. destruct (iloc n r c.1); [|done].
  unfold record_of. cbv zeta. by rewrite decide_True.
Qed.

(** X13. Comparing a readable file with itself gives no difference
    record, zero different cells, and, when the grid has a cell, a
    similarity of 1. *)
Theorem compare_files_self (self : CSVComparator) (path : pystr)
    (df : DataFrame) :
  readable path df →
  ∃ r, compare_files self path path = Some r
    ∧ cell_differences r = []
    ∧ different_cells r = 0%Z
    ∧ identical_cells r = total_cells r
    ∧ ((0 < total_cells r)%Z → (similarity r == 1)%Q).
Proof.
  intros Hr.
  destruct (compare_files_result self path path df df Hr Hr)
    as (n1 & n2 & s1 & e1 & s2 & e2 & Hn & _ & _ & _ & _ & _ & Hres).
  assert (n2 = n1) as ->.
  { pose proof (normalize_swap df df) as Hsw.
    rewrite Hn in Hsw. cbn in Hsw. by injection Hsw. }
  cbv zeta in Hres. rewrite grid_records_same in Hres.
  cbn [length] in Hres. change (Z.of_nat 0) with 0%Z in Hres.
  rewrite Z.sub_0_r in Hres.
  eexists. split; [exact Hres|]. cbn [cell_differences different_cells
    identical_cells total_cells similarity].
  split_and!; [done..|].
  intros Hpos. rewrite (proj2 (Z.ltb_lt _ _) Hpos).
  match goal with
  | |- (inject_Z ?t / _ == 1)%Q =>
      destruct (ratio_facts t t Hpos ltac:(lia)) as (_ & _ & Heq & _)
  end.
  by apply Heq.
Qed.

(** X14. The similarity lies between 0 and 1; when the grid has a cell
    it is 1 exactly when there is no difference record, and it and the
    difference rate of the summary add up to 1. *)
Theorem similarity_bounds (self : CSVComparator) (base target : pystr)
    (df1 df2 : DataFrame) :
  readable base df1 → readable target df2 →
  ∃ r, compare_files self base target = Some r
    ∧ (0 <= similarity r)%Q ∧ (similarity r <= 1)%Q
    ∧ ((0 < total_cells r)%Z →
       ((similarity r == 1)%Q ↔ cell_differences r = [])
       ∧ (similarity r + difference_rate (summary r) == 1)%Q).
Proof.
  intros Hb Ht.
  destruct (compare_files_result self base target df1 df2 Hb Ht)
    as (n1 & n2 & s1 & e1 & s2 & e2 & Hn & _ & _ & _ & _ & _ & Hres).
  cbv zeta in Hres. eexists. split; [exact Hres|].
  cbn [similarity total_cells cell_differences summary difference_rate].
  pose proof (length_grid_records self n1 n2) as Hle.
  set (total := (Z.of_nat (len n1) * Z.of_nat (length (columns n1)))%Z) in *.
  set (different := Z.of_nat (length (grid_records self n1 n2))) in *.
  assert (different ≤ total)%Z as Hdt by (unfold different, total; nia).
  assert (0 ≤ different)%Z as Hd0 by (unfold different; lia).
  destruct (Z.ltb_spec 0 total) as [Hpos|Hzero].
  - destruct (ratio_facts (total - different) total Hpos ltac:(lia))
      as (H0 & H1 & Heq & Hsum).
    split_and!; [done..|]. intros _. split.
    + rewrite Heq. unfold different. split.
      * intros Hz. apply nil_length_inv. lia.
      * intros ->. cbn [length]. lia.
    + replace (total - (total - different))%Z with different in Hsum by lia.
      done.
  - split_and!; [done..|]. lia.
Qed.


End FilesMore.

Lemma StronglySorted_bind {A B} (R : relation B) (R' : relation A)
    (f : A → list B) (l : list A) :
  StronglySorted R' l →
  (∀ x, x ∈ l → StronglySorted R (f x)) →
  (∀ x y a b, R' x y → a ∈ f x → b ∈ f y → R a b) →
  StronglySorted R (l ≫= f).
Proof.
  intros Hl Hf HR. induction Hl as [|x l Hl IH Hx]; [constructor|].
  change (StronglySorted R (f x ++ (l ≫= f))).
  apply StronglySorted_app_2.
  - intros a b Ha (y & Hb & Hy)%list_elem_of_bind.
    eapply HR; [|done..]. by eapply Forall_forall in Hx.
  - apply Hf. by left.
  - apply IH. intros y Hy. apply Hf. by right.
Qed.

Lemma StronglySorted_imap_pair {A} (l : list A) :
  StronglySorted (λ p q : nat * A, p.1 < q.1) (imap pair l).
Proof.
  induction l as [|x l IH] using rev_ind; [constructor|].
  rewrite imap_app. apply StronglySorted_app_2; [|done|].
  - intros [i a] [j b] (i' & a' & [= <- <-] & Hi)%elem_of_lookup_imap Hq.
    cbn [imap] in Hq. apply list_elem_of_singleton in Hq as [= Hj Hb].
    apply lookup_lt_Some in Hi. cbn [fst]. lia.
  - cbn [imap]. repeat constructor.
Qed.

Lemma option_bind_all_None {A B} (m : option A) (f : A → option B) :
  (∀ x, f x = None) → m ≫= f = None.
Proof. intros Hf. destruct m; [apply Hf|done]. Qed.

Section Order.
Context {RT : Runtime} {SO : SetOrder} {FS : Files}.

Lemma elem_of_cell_records self df1 df2 r c d :
  d ∈ cell_records self df1 df2 r c → row d = r ∧ col d = c.1.
Proof.
  unfold cell_records. destruct (iloc df1 r c.1), (iloc df2 r c.1);
    try by intros ?%elem_of_nil.
  unfold record_of. cbv zeta. case_decide; [by intros ?%elem_of_nil|].
  by intros ->%list_elem_of_singleton.
Qed.

Lemma grid_records_sorted self df1 df2 :
  StronglySorted cell_before (grid_records self df1 df2).
Proof.
  unfold grid_records.
  apply (StronglySorted_bind _ lt); [apply StronglySorted_lt_seq| |].
  - intros r _. unfold row_records.
    apply (StronglySorted_bind _ (λ p q : nat * list N, p.1 < q.1));
      [apply StronglySorted_imap_pair| |].
    + intros c _. unfold cell_records.
      destruct (iloc df1 r c.1), (iloc df2 r c.1); try constructor.
      unfold record_of. cbv zeta. case_decide; repeat constructor.
    + intros c c' a b Hlt [Ha1 Ha2]%elem_of_cell_records
        [Hb1 Hb2]%elem_of_cell_records.
      right. split; [congruence|]. by rewrite Ha2, Hb2.
  - intros r r' a b Hlt (c & Ha & _)%list_elem_of_bind
      (c' & Hb & _)%list_elem_of_bind.
    apply elem_of_cell_records in Ha as [Ha _].
    apply elem_of_cell_records in Hb as [Hb _].
    left. by rewrite Ha, Hb.
Qed.

Lemma cell_before_NoDup (ds : list CellDifference) :
  StronglySorted cell_before ds → NoDup ((λ d, (row d, col d)) <$> ds).
Proof.
  induction 1 as [|d ds Hds IH Hd]; [constructor|].
  rewrite fmap_cons. constructor; [|done].
  intros (d' & [= Hr Hc] & Hd')%list_elem_of_fmap.
  eapply Forall_forall in Hd; [|done].
  unfold cell_before in Hd. lia.
Qed.

(** X16. The difference records come in the order of the grid read row
    by row, strictly: each record's cell lies after the cell of the record
    before it, so no cell has two records. *)
Theorem cell_differences_row_major (self : CSVComparator)
    (base target : pystr) (df1 df2 : DataFrame) :
  readable base df1 → readable target df2 →
  ∃ r, compare_files self base target = Some r
    ∧ StronglySorted cell_before (cell_differences r)
    ∧ NoDup ((λ d, (row d, col d)) <$> cell_differences r).
Proof.
  intros Hb Ht.
  destruct (compare_files_result self base target df1 df2 Hb Ht)
    as (n1 & n2 & s1 & e1 & s2 & e2 & _ & _ & _ & _ & _ & _ & Hres).
  cbv zeta in Hres. eexists. split; [exact Hres|].
  cbn [cell_differences].
  pose proof (grid_records_sorted self n1 n2) as Hsorted.
  split; [done|]. by apply cell_before_NoDup.
Qed.

(** X17. When every file that loads is a grid, [compare_files] raises
    only for a reason outside the comparison: exactly when one of the two
    files cannot be loaded, or its size or its encoding cannot be read. *)
Theorem compare_files_raises_iff (self : CSVComparator)
    (base target : pystr) :
  loads_grids →
  compare_files self base target = None
  ↔ load_csv base = None ∨ load_csv target = None
    ∨ stat_size base = None ∨ detect_encoding base = None
    ∨ stat_size target = None ∨ detect_encoding target = None.
Proof.
  intros Hgrids. split.
  - intros Hnone.
    destruct (load_csv base) as [df1|] eqn:Hl1; [|by left].
    destruct (load_csv target) as [df2|] eqn:Hl2; [|by right; left].
    destruct (stat_size base) as [s1|] eqn:Hs1; [|by right; right; left].
    destruct (detect_encoding base) as [e1|] eqn:He1;
      [|by right; right; right; left].
    destruct (stat_size target) as [s2|] eqn:Hs2;
      [|by right; right; right; right; left].
    destruct (detect_encoding target) as [e2|] eqn:He2;
      [|by right; right; right; right; right].
    exfalso.
    destruct (compare_files_result self base target df1 df2)
      as (? & ? & ? & ? & ? & ? & _ & _ & _ & _ & _ & _ & Hres).
    { split_and!; [done|by eapply Hgrids|by rewrite Hs1|by rewrite He1]. }
    { split_and!; [done|by eapply Hgrids|by rewrite Hs2|by rewrite He2]. }
    cbv zeta in Hres. congruence.
  - intros Hfail. unfold compare_files.
    destruct (load_csv base) as [df1|] eqn:Hl1; [|done].
    destruct (load_csv target) as [df2|] eqn:Hl2; [|done].
    cbn [mbind option_bind].
    destruct (normalize_dataframes df1 df2) as [[n1 n2]|]; [|done].
    cbn [mbind option_bind].
    destruct (compare_loop self n1 n2) as [[ds n]|]; [|done].
    cbn [mbind option_bind].
    apply option_bind_all_None. intros sim. unfold file_info.
    destruct Hfail as [?|[?|[Hf|[Hf|[Hf|Hf]]]]]; try done.
    + by rewrite Hf.
    + rewrite Hf. by destruct (stat_size base).
    + rewrite Hf. by destruct (stat_size base), (detect_encoding base).
    + rewrite Hf.
      by destruct (stat_size base), (detect_encoding base), (stat_size target).
Qed.

(** X18. When the base file cannot be loaded, [batch_compare] still
    returns an entry for every target, and every entry is [None]. *)
Theorem batch_compare_base_unreadable (self : CSVComparator)
    (base : pystr) (targets : list pystr) :
  load_csv base = None →
  (∀ t, t ∈ targets →
        dict_get t (batch_compare self base targets) = Some None)
  ∧ (batch_compare self base targets).*1 = first_occurrences targets
  ∧ Forall (λ p, p.2 = None) (batch_compare self base targets).
Proof.
  intros Hbase.
  assert (∀ t, compare_files self base t = None) as Hnone.
  { intros t. unfold compare_files. by rewrite Hbase. }
  split_and!.
  - intros t Ht. rewrite batch_compare_foldl, batch_get.
    by rewrite decide_True, Hnone.
  - rewrite batch_compare_foldl. apply batch_keys.
  - rewrite batch_compare_foldl.
    assert (∀ acc, Forall (λ p : list N * option ComparisonResult, p.2 = None)
                     acc →
                   Forall (λ p, p.2 = None)
                     (foldl (batch_step self base) acc targets)) as Hall.
    { induction targets as [|t targets IH]; intros acc Hacc; [done|].
      cbn [foldl]. apply IH. unfold batch_step. rewrite Hnone.
      clear IH. induction Hacc as [|[k v] acc Hk Hacc IHacc];
        cbn [dict_set]; [by repeat constructor|].
      case_decide; constructor; auto. }
    by apply Hall.
Qed.

End Order.

Lemma sample_files_load_grids : loads_grids (FS:=sample_files).
Proof.
  intros path df. cbn [load_csv sample_files].
  repeat case_decide; intros [= <-];
    auto using sample_base_ok, sample_target_ok, sample_empty_ok.
Qed.

Lemma compare_files_self_witness :
  ∃ r, compare_files (RT:=ascii_runtime) (SO:=elements_order)
         (FS:=sample_files) trimming (lit "base.csv") (lit "base.csv") = Some r
    ∧ cell_differences r = [] ∧ different_cells r = 0%Z.
Proof.
  destruct (compare_files_self (RT:=ascii_runtime) (SO:=elements_order)
              (FS:=sample_files) trimming (lit "base.csv") sample_base
              sample_base_readable) as (r & Hr & Hd & Hz & _).
  exists r. repeat split; assumption.
Defined.

Lemma similarity_bounds_witness :
  ∃ r, compare_files (RT:=ascii_runtime) (SO:=elements_order)
         (FS:=sample_files) trimming (lit "base.csv") (lit "target.csv")
       = Some r
    ∧ (0 <= similarity r)%Q ∧ (similarity r <= 1)%Q.
Proof.
  destruct (similarity_bounds (RT:=ascii_runtime) (SO:=elements_order)
              (FS:=sample_files) trimming (lit "base.csv") (lit "target.csv")
              sample_base sample_target
              sample_base_readable sample_target_readable)
    as (r & Hr & H0 & H1 & _).
  exists r. repeat split; assumption.
Defined.


Lemma cell_differences_row_major_witness :
  ∃ r, compare_files (RT:=ascii_runtime) (SO:=elements_order)
         (FS:=sample_files) trimming (lit "base.csv") (lit "target.csv")
       = Some r
    ∧ StronglySorted cell_before (cell_differences r).
Proof.
  destruct (cell_differences_row_major (RT:=ascii_runtime)
              (SO:=elements_order) (FS:=sample_files) trimming
              (lit "base.csv") (lit "target.csv") sample_base sample_target
              sample_base_readable sample_target_readable)
    as (r & Hr & Hs & _).
  exists r. repeat split; assumption.
Defined.

Lemma compare_files_raises_iff_witness :
  compare_files (RT:=ascii_runtime) (SO:=elements_order) (FS:=sample_files)
    trimming (lit "base.csv") (lit "missing.csv") = None.
Proof.
  apply (compare_files_raises_iff (RT:=ascii_runtime) (SO:=elements_order)
           (FS:=sample_files) trimming (lit "base.csv") (lit "missing.csv")
           sample_files_load_grids).
  right. left. by vm_compute.
Defined.

Lemma batch_compare_base_unreadable_witness :
  Forall (λ p, p.2 = None)
    (batch_compare (RT:=ascii_runtime) (SO:=elements_order) (FS:=sample_files)
       trimming (lit "missing.csv") [lit "base.csv"; lit "target.csv"]).
Proof.
  apply (batch_compare_base_unreadable (RT:=ascii_runtime)
           (SO:=elements_order) (FS:=sample_files) trimming
           (lit "missing.csv") [lit "base.csv"; lit "target.csv"]).
  by vm_compute.
Defined.

(** * Loading a file *)

Section LoadingFacts.
Context {D : Disk}.

Lemma fillna_no_nan df : CNaN ∉ cells (fillna df (CStr [])).
Proof.
  unfold cells, fillna. cbn [values].
  intros (row & Hx & Hrow)%list_elem_of_join.
  apply list_elem_of_fmap in Hrow as (row0 & -> & _).
  apply list_elem_of_fmap in Hx as (x & Hx & _).
  by destruct x.
Qed.

Lemma fillna_grid_ok df : grid_ok df → grid_ok (fillna df (CStr [])).
Proof.
  intros [[Hlen Hrows] Hnd]. split; [split|]; cbn [fillna values index columns].
  - by rewrite length_fmap.
  - apply Forall_fmap. eapply Forall_impl; [done|].
    intros r Hr. cbn. by rewrite length_fmap.
  - done.
Qed.

Lemma try_encodings_spec path encs :
  match try_encodings path encs with
  | (w, inl df) =>
      ∃ i enc df0,
        encs !! i = Some enc ∧ read_csv path enc = inl df0
        ∧ df = fillna df0 (CStr []) ∧ w = [load_warning enc path]
        ∧ ∀ j e, j < i → encs !! j = Some e →
                 read_csv path e = inr DecodeError
  | (w, inr UnknownEncoding) =>
      w = [] ∧ ∀ e, e ∈ encs → read_csv path e = inr DecodeError
  | (w, inr ReadFailed) =>
      w = []
      ∧ ∃ i enc,
          encs !! i = Some enc ∧ read_csv path enc = inr OtherReadError
          ∧ ∀ j e, j < i → encs !! j = Some e →
                   read_csv path e = inr DecodeError
  | (w, inr OpenFailed) => False
  end.
Proof.
  induction encs as [|enc encs IH]; cbn [try_encodings].
  { split; [done|]. intros e He. by apply elem_of_nil in He. }
  destruct (read_csv path enc) as [df0|[]] eqn:Hread.
  - exists 0, enc, df0. split_and!; [done..|]. intros j e Hj. lia.
  - destruct (try_encodings path encs) as [w [df|[]]].
    + destruct IH as (i & e & df0 & Hi & He & Hdf & Hw & Hbefore).
      exists (S i), e, df0. split_and!; [done..|].
      intros [|j] e' Hj Hlook; [by injection Hlook as <-|].
      apply (Hbefore j); [lia|done].
    + done.
    + destruct IH as (Hw & i & e & Hi & He & Hbefore).
      split; [done|]. exists (S i), e. split_and!; [done..|].
      intros [|j] e' Hj Hlook; [by injection Hlook as <-|].
      apply (Hbefore j); [lia|done].
    + destruct IH as [Hw IH]. split; [done|].
      intros e [->|He]%elem_of_cons; [done|]. by apply IH.
  - split; [done|]. exists 0, enc. split_and!; [done..|]. intros j e Hj. lia.
Qed.

Lemma try_encodings_first path encs i e df0 :
  encs !! i = Some e → read_csv path e = inl df0 →
  (∀ j e', j < i → encs !! j = Some e' →
           read_csv path e' = inr DecodeError) →
  try_encodings path encs
  = ([load_warning e path], inl (fillna df0 (CStr []))).
Proof.
  revert i. induction encs as [|e0 encs IH]; intros i Hi He Hbefore; [done|].
  cbn [try_encodings]. destruct i as [|i].
  - injection Hi as ->. by rewrite He.
  - rewrite (Hbefore 0 e0); [|lia|done].
    apply (IH i); [done..|].
    intros j e' Hj Hlook. apply (Hbefore (S j)); [lia|done].
Qed.

Lemma try_encodings_none path encs :
  (∀ e, e ∈ encs → read_csv path e = inr DecodeError) →
  try_encodings path encs = ([], inr UnknownEncoding).
Proof.
  induction encs as [|e0 encs IH]; intros Hall; [done|].
  cbn [try_encodings]. rewrite Hall by left.
  apply IH. intros e He. apply Hall. by right.
Qed.

(** X19. [load_csv] returns the frame read under the first encoding,
    among the given or detected one followed by utf-8, gbk, gb2312,
    iso-8859-1 and cp1252, that [read_csv] accepts, every encoding before
    it having raised [UnicodeDecodeError]; it prints a warning naming the
    encoding exactly when that is not the first one.  It fails for want of
    an encoding exactly when all six raise [UnicodeDecodeError]. *)
Theorem load_csv_first_decodable (path : pystr) (encoding : option pystr)
    (enc : pystr) :
  (if encoding is Some e then Some e else detect_encoding_impl path)
  = Some enc →
  let tried := enc :: fallback_encodings in
  (∀ w df, load_csv_impl path encoding = (w, inl df) ↔
     ∃ i e df0,
       tried !! i = Some e ∧ read_csv path e = inl df0
       ∧ df = fillna df0 (CStr [])
       ∧ w = (if i is 0 then [] else [load_warning e path])
       ∧ ∀ j e', j < i → tried !! j = Some e' →
                 read_csv path e' = inr DecodeError)
  ∧ ((load_csv_impl path encoding).2 = inr UnknownEncoding
     ↔ ∀ e, e ∈ tried → read_csv path e = inr DecodeError)
  ∧ (load_csv_impl path encoding).2 ≠ inr OpenFailed.
Proof.
  intros Henc tried. unfold load_csv_impl. rewrite Henc.
  pose proof (try_encodings_spec path fallback_encodings) as Hspec.
  destruct (read_csv path enc) as [df1|[]] eqn:Hread.
  - split_and!; [| |done].
    + intros w df. split.
      * intros [= <- <-]. exists 0, enc, df1. split_and!; [done..|].
        intros j e' Hj. lia.
      * intros ([|i] & e & df0 & Hi & He & -> & -> & Hbefore).
        -- injection Hi as <-. rewrite Hread in He. by injection He as ->.
        -- rewrite (Hbefore 0 enc) in Hread; [done|lia|done].
    + split; [done|]. intros Hall. rewrite Hall in Hread by left. done.
  - split_and!.
    + intros w df. split.
      * intros Hload. rewrite Hload in Hspec.
        destruct Hspec as (i & e & df0 & Hi & He & Hdf & Hw & Hbefore).
        exists (S i), e, df0. split_and!; [done..|].
        intros [|j] e' Hj Hlook; [by injection Hlook as <-|].
        apply (Hbefore j); [lia|done].
      * intros ([|i] & e & df0 & Hi & He & -> & -> & Hbefore).
        -- injection Hi as <-. rewrite Hread in He. done.
        -- apply (try_encodings_first path _ i); [done..|].
           intros j e' Hj Hlook. apply (Hbefore (S j)); [lia|done].
    + split.
      * intros Hload.
        destruct (try_encodings path fallback_encodings) as [w [df|[]]];
          try done.
        destruct Hspec as [_ Hall].
        intros e [->|He]%elem_of_cons; [done|]. by apply Hall.
      * intros Hall. rewrite try_encodings_none; [done|].
        intros e He. apply Hall. by right.
    + intros Hload.
      destruct (try_encodings path fallback_encodings) as [w [df|[]]];
        done.
  - split_and!; [| |done].
    + intros w df. split; [done|].
      intros ([|i] & e & df0 & Hi & He & _ & _ & Hbefore).
      * injection Hi as <-. rewrite Hread in He. done.
      * rewrite (Hbefore 0 enc) in Hread; [done|lia|done].
    + split; [done|]. intros Hall. rewrite Hall in Hread by left. done.
Qed.

(** X20. A frame [load_csv] returns has no missing value, and is a grid
    whenever the frame [read_csv] gave was one. *)
Theorem load_csv_no_missing_value (path : pystr) (encoding : option pystr)
    (df : DataFrame) :
  (load_csv_impl path encoding).2 = inl df →
  (CNaN ∉ cells df)
  ∧ ((∀ e df0, read_csv path e = inl df0 → grid_ok df0) → grid_ok df).
Proof.
  unfold load_csv_impl.
  destruct (if encoding is Some e then Some e else detect_encoding_impl path)
    as [enc|]; [|done].
  intros Hload.
  assert (∃ e df0, read_csv path e = inl df0 ∧ df = fillna df0 (CStr []))
    as (e & df0 & He & ->).
  { destruct (read_csv path enc) as [df0|[]] eqn:Hread; [| |done].
    - injection Hload as <-. eauto.
    - pose proof (try_encodings_spec path fallback_encodings) as Hspec.
      destruct (try_encodings path fallback_encodings) as [w [df'|err]];
        [|done].
      cbn in Hload. injection Hload as ->.
      destruct Hspec as (i & e & df0 & _ & He & Hdf & _). eauto. }
  split; [apply fillna_no_nan|].
  intros Hgrid. apply fillna_grid_ok. by eapply Hgrid.
Qed.

(** X21. [detect_encoding] raises exactly when the file cannot be opened;
    otherwise it returns a non-empty encoding name, [utf-8] when [chardet]
    names none. *)
Theorem detect_encoding_never_empty (path : pystr) :
  (detect_encoding_impl path = None ↔ read_head path = None)
  ∧ (∀ enc, detect_encoding_impl path = Some enc → enc ≠ [])
  ∧ (∀ raw, read_head path = Some raw →
            chardet_detect raw = None ∨ chardet_detect raw = Some [] →
            detect_encoding_impl path = Some (lit "utf-8")).
Proof.
  unfold detect_encoding_impl.
  destruct (read_head path) as [raw|]; cbn [mbind option_bind].
  - split_and!; [split; done| |].
    + intros enc [= <-]. by destruct (chardet_detect raw) as [[|c e]|].
    + intros raw' [= <-] [->| ->]; done.
  - by split_and!.
Qed.

End LoadingFacts.

Lemma load_csv_first_decodable_witness :
  load_csv_impl (D:=sample_disk) (lit "data.csv") None
  = ([load_warning (lit "gbk") (lit "data.csv")],
     inl (fillna sample_short (CStr []))).
Proof.
  apply (load_csv_first_decodable (D:=sample_disk) (lit "data.csv") None
           (lit "utf-8") eq_refl).
  exists 2, (lit "gbk"), sample_short. split_and!; [done..|].
  intros j e' Hj Hlook.
  destruct j as [|[|j]]; [| |lia]; vm_compute in Hlook;
    injection Hlook as <-; reflexivity.
Defined.

Lemma load_csv_no_missing_value_witness :
  CNaN ∉ cells (fillna sample_short (CStr [])).
Proof.
  apply (load_csv_no_missing_value (D:=sample_disk) (lit "data.csv") None
           (fillna sample_short (CStr []))).
  by vm_compute.
Defined.

(** * Escaping for HTML *)

Lemma escape_html_cons c text :
  _escape_html (c :: text)
  = default [c] (dict_get c html_escape_table) ++ _escape_html text.
Proof. done. Qed.

(** What one character becomes. *)
Lemma escape_char_cases (c : N) :
  (c = 0x26%N ∧ default [c] (dict_get c html_escape_table) = lit "&amp;")
  ∨ (c = 0x22%N ∧ default [c] (dict_get c html_escape_table) = lit "&quot;")
  ∨ (c = 0x27%N ∧ default [c] (dict_get c html_escape_table) = lit "&#x27;")
  ∨ (c = 0x3E%N ∧ default [c] (dict_get c html_escape_table) = lit "&gt;")
  ∨ (c = 0x3C%N ∧ default [c] (dict_get c html_escape_table) = lit "&lt;")
  ∨ ((c ∉ [0x26; 0x22; 0x27; 0x3E; 0x3C]%N)
     ∧ default [c] (dict_get c html_escape_table) = [c]).
Proof.
  unfold html_escape_table. cbn [dict_get].
  destruct (decide (c = 0x26%N)) as [->|H1]; [by left|].
  destruct (decide (c = 0x22%N)) as [->|H2]; [by right; left|].
  destruct (decide (c = 0x27%N)) as [->|H3]; [by right; right; left|].
  destruct (decide (c = 0x3E%N)) as [->|H4]; [by right; right; right; left|].
  destruct (decide (c = 0x3C%N)) as [->|H5];
    [by right; right; right; right; left|].
  right; right; right; right; right. split; [|done].
  rewrite !not_elem_of_cons. split_and!; [done..|]. apply not_elem_of_nil.
Qed.

Lemma escape_html_app a b :
  _escape_html (a ++ b) = _escape_html a ++ _escape_html b.
Proof.
  induction a as [|c a IH]; [done|].
  cbn [app]. by rewrite !escape_html_cons, IH, <- app_assoc.
Qed.

Lemma escape_html_head c1 c2 e1 e2 :
  default [c1] (dict_get c1 html_escape_table) ++ e1
  = default [c2] (dict_get c2 html_escape_table) ++ e2 →
  c1 = c2 ∧ e1 = e2.
Proof.
  destruct (escape_char_cases c1) as [[-> ->]|[[-> ->]|[[-> ->]|[[-> ->]|
    [[-> ->]|[Hn1 ->]]]]]];
  destruct (escape_char_cases c2) as [[-> ->]|[[-> ->]|[[-> ->]|[[-> ->]|
    [[-> ->]|[Hn2 ->]]]]]];
  cbn; intros Heq; try (by simplify_eq); try (simplify_eq; done).
  all: try (exfalso; simplify_eq; (apply Hn1 || apply Hn2);
            by apply (bool_decide_unpack _); vm_compute).
Qed.

(** X22. [_escape_html] leaves no [<], [>], double or single quote in
    its output, leaves a text without these and without [&] unchanged,
    distributes over concatenation, and never maps two different texts to
    the same output. *)
Theorem escape_html_spec :
  (∀ text, Forall (λ c, c ∉ [0x3C; 0x3E; 0x22; 0x27]%N) (_escape_html text))
  ∧ (∀ text, Forall (λ c, c ∉ [0x26; 0x22; 0x27; 0x3E; 0x3C]%N) text →
             _escape_html text = text)
  ∧ (∀ a b, _escape_html (a ++ b) = _escape_html a ++ _escape_html b)
  ∧ (∀ a b, _escape_html a = _escape_html b → a = b).
Proof.
  split_and!.
  - intros text. induction text as [|c text IH]; [constructor|].
    rewrite escape_html_cons. apply Forall_app. split; [|done].
    destruct (escape_char_cases c) as [[-> ->]|[[-> ->]|[[-> ->]|[[-> ->]|
      [[-> ->]|[Hn ->]]]]]].
    1-5: cbn; repeat (constructor;
                        [by apply (bool_decide_unpack _); vm_compute|]);
         constructor.
    constructor; [|constructor]. intros Hin. apply Hn. revert Hin.
    rewrite !elem_of_cons, !elem_of_nil. tauto.
  - intros text. induction 1 as [|c text Hc _ IH]; [done|].
    rewrite escape_html_cons, IH.
    destruct (escape_char_cases c) as [[-> _]|[[-> _]|[[-> _]|[[-> _]|
      [[-> _]|[_ ->]]]]]]; try done; exfalso; apply Hc;
      by apply (bool_decide_unpack _); vm_compute.
  - apply escape_html_app.
  - intros a. induction a as [|c1 a IH]; intros [|c2 b].
    + done.
    + rewrite escape_html_cons. intros Heq. symmetry in Heq.
      apply app_eq_nil in Heq as [Heq _].
      by destruct (escape_char_cases c2) as [[_ Hr]|[[_ Hr]|[[_ Hr]|[[_ Hr]|
        [[_ Hr]|[_ Hr]]]]]]; rewrite Hr in Heq.
    + rewrite escape_html_cons. intros Heq.
      apply app_eq_nil in Heq as [Heq _].
      by destruct (escape_char_cases c1) as [[_ Hr]|[[_ Hr]|[[_ Hr]|[[_ Hr]|
        [[_ Hr]|[_ Hr]]]]]]; rewrite Hr in Heq.
    + rewrite !escape_html_cons. intros [-> Heq]%escape_html_head.
      f_equal. by apply IH.
Qed.

Example escape_html_sample :
  _escape_html (lit "a<b & 'c'") = lit "a&lt;b &amp; &#x27;c&#x27;".
Proof. by vm_compute. Qed.

(** * Reporting *)

Lemma out_bind_print {B} (s : list N) (f : unit → out B) :
  outcome (print s ≫= f) = outcome (f tt)
  ∧ printed (print s ≫= f) = s :: printed (f tt).
Proof. done. Qed.

Lemma out_bind_ok {A B} (m : out A) (f : A → out B) x :
  outcome m = Some x →
  outcome (m ≫= f) = outcome (f x)
  ∧ printed (m ≫= f) = printed m ++ printed (f x).
Proof. intros Hm. unfold mbind, out_bind. by rewrite Hm. Qed.

Lemma out_bind_raise {A B} (m : out A) (f : A → out B) :
  outcome m = None →
  outcome (m ≫= f) = None ∧ printed (m ≫= f) = printed m.
Proof. intros Hm. unfold mbind, out_bind. by rewrite Hm. Qed.

Section ReporterFacts.
Context {F : Formats}.

Lemma print_preview_outcome p : outcome (print_preview p) = Some tt.
Proof.
  destruct p as [i d]. unfold print_preview.
  rewrite !(proj1 (out_bind_print _ _)).
  destruct (unicode_analysis d) as [an|]; [|done].
  by destruct (diff_types an).
Qed.

Lemma for_each_outcome {X} (l : list X) (body : X → out unit) :
  (∀ x, outcome (body x) = Some tt) → outcome (for_each l body) = Some tt.
Proof.
  intros Hbody. induction l as [|x l IH]; [done|].
  cbn [for_each]. by rewrite (proj1 (out_bind_ok _ _ tt (Hbody x))).
Qed.

(** The part of [print_summary] after the four counts. *)
Lemma print_summary_tail_outcome (result : ComparisonResult) (rate : Q) :
  outcome
    (_ ← print (u8 "📉 差异率: " ++ format_fixed 2 (rate * 100)%Q ++ lit "%");
     _ ← (if (0 <? different_cells result)%Z then
            _ ← print ([0x0A%N] ++ u8 "🔍 差异详情预览 (前5个):");
            for_each (imap pair (take 5 (cell_differences result)))
                     print_preview
          else mret tt);
     _ ← print ([0x0A%N] ++ u8 "📁 文件信息:");
     let base_info := base_file_info result in
     let target_info := target_file_info result in
     _ ← print (u8 "  基准文件: " ++ str_of_nat (fi_rows base_info)
                ++ u8 "行 x " ++ str_of_nat (fi_columns base_info)
                ++ u8 "列 (" ++ fi_encoding base_info ++ lit ")");
     print (u8 "  目标文件: " ++ str_of_nat (fi_rows target_info)
            ++ u8 "行 x " ++ str_of_nat (fi_columns target_info)
            ++ u8 "列 (" ++ fi_encoding target_info ++ lit ")"))
  = Some tt.
Proof.
  rewrite (proj1 (out_bind_print _ _)).
  assert (outcome (if (0 <? different_cells result)%Z
                   then _ ← print ([0x0A%N] ++ u8 "🔍 差异详情预览 (前5个):");
                        for_each (imap pair
                                    (take 5 (cell_differences result)))
                                 print_preview
                   else mret tt) = Some tt) as Hloop.
  { destruct (0 <? different_cells result)%Z; [|done].
    rewrite (proj1 (out_bind_print _ _)).
    apply for_each_outcome, print_preview_outcome. }
  rewrite (proj1 (out_bind_ok _ _ tt Hloop)).
  rewrite (proj1 (out_bind_print _ _)). cbv zeta.
  by rewrite (proj1 (out_bind_print _ _)).
Qed.

Lemma print_summary_raises (result : ComparisonResult)
    (target_file : pystr) :
  (outcome (print_summary result target_file) = None
   ↔ total_cells result = 0%Z)
  ∧ (total_cells result = 0%Z →
     printed (print_summary result target_file)
     = [ [0x0A%N] ++ replicate 60 0x3D%N; u8 "📊 CSV文件比对结果摘要" ]
       ++ (if target_file is _ :: _ then [u8 "目标文件: " ++ target_file]
           else [])
       ++ [ replicate 60 0x3D%N;
            u8 "📈 总体相似度: " ++ format_percent 2 (similarity result);
            u8 "📋 总单元格数: " ++ format_thousands (total_cells result);
            u8 "✅ 相同单元格: "
              ++ format_thousands (identical_cells result);
            u8 "❌ 不同单元格: "
              ++ format_thousands (different_cells result) ]).
Proof.
  assert (outcome (if target_file is _ :: _
                   then print (u8 "目标文件: " ++ target_file)
                   else mret tt) = Some tt) as Htarget
    by by destruct target_file.
  unfold print_summary. split.
  - rewrite !(proj1 (out_bind_print _ _)).
    rewrite (proj1 (out_bind_ok _ _ tt Htarget)).
    rewrite !(proj1 (out_bind_print _ _)).
    unfold truediv.
    destruct (decide (total_cells result = 0%Z)) as [Hz|Hnz].
    + by rewrite (proj1 (out_bind_raise (lift None) _ eq_refl)).
    + rewrite (proj1 (out_bind_ok (lift (Some _)) _ _ eq_refl)).
      by rewrite print_summary_tail_outcome.
  - intros Hz.
    rewrite !(proj2 (out_bind_print _ _)).
    rewrite (proj2 (out_bind_ok _ _ tt Htarget)).
    rewrite !(proj2 (out_bind_print _ _)).
    unfold truediv. rewrite decide_True by done.
    rewrite (proj2 (out_bind_raise (lift None) _ eq_refl)).
    by destruct target_file.
Qed.


End ReporterFacts.

Section ReporterAfterCompare.
Context {RT : Runtime} {SO : SetOrder} {FS : Files} {F : Formats}.

(** X24. On the result of comparing two readable files, [print_summary]
    raises exactly when neither file has a row or neither has a column,
    which is the case [compare_files] itself answers with similarity 0. *)
Theorem print_summary_after_compare (self : CSVComparator)
    (base target : pystr) (df1 df2 : DataFrame) :
  readable base df1 → readable target df2 →
  ∃ r, compare_files self base target = Some r
    ∧ (outcome (print_summary r target) = None
       ↔ (len df1 = 0 ∧ len df2 = 0)
         ∨ (columns df1 = [] ∧ columns df2 = [])).
Proof.
  intros Hb Ht.
  destruct (compare_files_result self base target df1 df2 Hb Ht)
    as (n1 & n2 & s1 & e1 & s2 & e2 & _ & Hal & _ & _ & _ & _ & Hres).
  destruct Hal as (_ & _ & Hunion & (Hsh1 & _) & _).
  cbv zeta in Hres. eexists. split; [exact Hres|].
  rewrite (proj1 (print_summary_raises _ _)). cbn [total_cells].
  unfold shape in Hsh1. injection Hsh1 as Hrows. fold (len n1) in Hrows.
  rewrite Hrows.
  assert (length (columns n1) = 0 ↔ columns df1 = [] ∧ columns df2 = [])
    as Hcols.
  { split.
    - intros Hnil%nil_length_inv. rewrite Hnil in Hunion.
      split.
      + destruct (columns df1) as [|c cs]; [done|]. exfalso.
        eapply elem_of_nil, Hunion. left. by left.
      + destruct (columns df2) as [|c cs]; [done|]. exfalso.
        eapply elem_of_nil, Hunion. right. by left.
    - intros [H1 H2]. destruct (columns n1) as [|c cs]; [done|].
      exfalso. destruct (proj1 (Hunion c)) as [Hc|Hc]; [by left|..].
      + rewrite H1 in Hc. by apply elem_of_nil in Hc.
      + rewrite H2 in Hc. by apply elem_of_nil in Hc. }
  rewrite <- Hcols, Z.mul_eq_0. lia.
Qed.

End ReporterAfterCompare.

Section BatchSummary.
Context {F : Formats} {W : Writer}.




End BatchSummary.

Lemma print_summary_after_compare_witness :
  ∃ r, compare_files (RT:=ascii_runtime) (SO:=elements_order)
         (FS:=sample_files) trimming (lit "empty.csv") (lit "empty.csv")
       = Some r
    ∧ outcome (print_summary (F:=sample_formats) r (lit "empty.csv")) = None.
Proof.
  destruct (print_summary_after_compare (RT:=ascii_runtime)
              (SO:=elements_order) (FS:=sample_files) (F:=sample_formats)
              trimming (lit "empty.csv") (lit "empty.csv")
              sample_empty sample_empty
              sample_empty_readable sample_empty_readable)
    as (r & Hr & Hiff).
  exists r. split; [exact Hr|]. apply Hiff. left. split; reflexivity.
Defined.

(** * Sizes *)

Section Sizes.
Context {F : Formats}.

(** X26. [format_size] shows a size below 1024 in B, and otherwise
    divides by 1024 until the value is below 1024, moving to KB, MB and
    GB; from 1024^4 on it shows the size in TB, whatever its value. *)
Theorem format_size_units (n : N) :
  (n < 2 ^ 53)%N →
  let x := inject_Z (Z.of_N n) in
  ((n < 1024)%N → format_size n = format_fixed 1 x ++ lit " B")
  ∧ ((1024 ≤ n < 1024 ^ 2)%N →
     format_size n = format_fixed 1 (x / 1024)%Q ++ lit " KB")
  ∧ ((1024 ^ 2 ≤ n < 1024 ^ 3)%N →
     format_size n = format_fixed 1 (x / 1024 / 1024)%Q ++ lit " MB")
  ∧ ((1024 ^ 3 ≤ n < 1024 ^ 4)%N →
     format_size n = format_fixed 1 (x / 1024 / 1024 / 1024)%Q ++ lit " GB")
  ∧ ((1024 ^ 4 ≤ n)%N →
     format_size n
     = format_fixed 1 (x / 1024 / 1024 / 1024 / 1024)%Q ++ lit " TB").
Proof.
  intros _ x.
  assert (Qle_bool 1024 x = true ↔ (1024 ≤ n)%N) as H1.
  { unfold x. rewrite Qle_bool_iff. unfold Qle, inject_Z. cbn. lia. }
  assert (Qle_bool 1024 (x / 1024) = true ↔ (1024 ^ 2 ≤ n)%N) as H2.
  { unfold x. rewrite Qle_bool_iff. unfold Qle, Qdiv, Qmult, Qinv, inject_Z.
    cbn. lia. }
  assert (Qle_bool 1024 (x / 1024 / 1024) = true ↔ (1024 ^ 3 ≤ n)%N) as H3.
  { unfold x. rewrite Qle_bool_iff. unfold Qle, Qdiv, Qmult, Qinv, inject_Z.
    cbn. lia. }
  assert (Qle_bool 1024 (x / 1024 / 1024 / 1024) = true
          ↔ (1024 ^ 4 ≤ n)%N) as H4.
  { unfold x. rewrite Qle_bool_iff. unfold Qle, Qdiv, Qmult, Qinv, inject_Z.
    cbn. lia. }
  unfold format_size. fold x. cbn [format_size_loop].
  destruct (N.le_gt_cases 1024 n) as [L1|G1].
  2: { rewrite (not_true_is_false _ (λ E, N.lt_irrefl _
                  (N.lt_le_trans _ _ _ G1 (proj1 H1 E)))).
       split_and!; intros; (done || lia). }
  rewrite (proj2 H1 L1).
  destruct (N.le_gt_cases (1024 ^ 2) n) as [L2|G2].
  2: { rewrite (not_true_is_false _ (λ E, N.lt_irrefl _
                  (N.lt_le_trans _ _ _ G2 (proj1 H2 E)))).
       split_and!; intros; (done || lia). }
  rewrite (proj2 H2 L2).
  destruct (N.le_gt_cases (1024 ^ 3) n) as [L3|G3].
  2: { rewrite (not_true_is_false _ (λ E, N.lt_irrefl _
                  (N.lt_le_trans _ _ _ G3 (proj1 H3 E)))).
       split_and!; intros; (done || lia). }
  rewrite (proj2 H3 L3).
  destruct (N.le_gt_cases (1024 ^ 4) n) as [L4|G4].
  2: { rewrite (not_true_is_false _ (λ E, N.lt_irrefl _
                  (N.lt_le_trans _ _ _ G4 (proj1 H4 E)))).
       split_and!; intros; (done || lia). }
  rewrite (proj2 H4 L4).
  split_and!; intros; (done || lia).
Qed.

End Sizes.

Lemma format_size_units_witness :
  format_size (F:=sample_formats) 1048575
  = format_fixed (Formats:=sample_formats) 1
      (inject_Z 1048575 / 1024)%Q ++ lit " KB".
Proof.
  apply (format_size_units (F:=sample_formats) 1048575); [reflexivity|].
  split; [by vm_compute|reflexivity].
Defined.

(** * More on the result of a comparison *)

Lemma iloc_elem df r j x : iloc df r j = Some x → x ∈ cells df.
Proof.
  unfold iloc, cells. destruct (values df !! r) as [row|] eqn:Hrow; [|done].
  cbn [mbind option_bind]. intros Hx. apply list_elem_of_join.
  exists row. eauto using list_elem_of_lookup_2.
Qed.

Lemma fmap_bind_ext {A B C} (f f' : B → C) (g g' : A → list B) (l : list A) :
  (∀ x, x ∈ l → f <$> g x = f' <$> g' x) →
  f <$> (l ≫= g) = f' <$> (l ≫= g').
Proof.
  induction l as [|x l IH]; intros Hext; [done|].
  change (f <$> (g x ++ (l ≫= g)) = f' <$> (g' x ++ (l ≫= g'))).
  rewrite !fmap_app, Hext by left. f_equal.
  apply IH. intros y Hy. apply Hext. by right.
Qed.

Section ResultMore.
Context {RT : Runtime} {SO : SetOrder} {FS : Files}.

(** X27. Every value a difference record shows is the text of a cell of
    the file on that side, or the empty string the alignment filled in. *)
Theorem cell_differences_values (self : CSVComparator) (base other : pystr)
    (df1 df2 : DataFrame) :
  readable base df1 → readable other df2 →
  ∃ r, compare_files self base other = Some r
    ∧ Forall (λ d,
        ((∃ x, x ∈ cells df1 ∧ original d = str x) ∨ original d = [])
        ∧ ((∃ x, x ∈ cells df2 ∧ target d = str x) ∨ target d = []))
        (cell_differences r).
Proof.
  intros Hb Ht.
  destruct (compare_files_result self base other df1 df2 Hb Ht)
    as (n1 & n2 & s1 & e1 & s2 & e2 & _ & Hal & _ & _ & _ & _ & Hres).
  destruct Hal as (Hcols & Hsorted & _ & Hside1 & Hside2).
  pose proof (StronglySorted_str_lt_NoDup _ Hsorted) as Hnd.
  cbv zeta in Hres. eexists. split; [exact Hres|]. cbn [cell_differences].
  apply Forall_forall. intros d Hd.
  apply elem_of_grid_records in Hd
    as (r & j & name & x1 & x2 & _ & Hx1 & Hx2 & Hrec);
    [|by destruct Hside1 as (_ & _ & ? & _)].
  unfold record_of in Hrec. cbv zeta in Hrec.
  case_decide; [done|]. injection Hrec as <-. cbn [original target].
  destruct Hb as (_ & Hok1 & _). destruct Ht as (_ & Hok2 & _).
  split.
  - destruct (aligned_side_cells df1 n1 _ x1 Hok1 Hside1 Hnd) as [Hin| ->];
      [by eapply iloc_elem|left; eauto|by right].
  - destruct (aligned_side_cells df2 n2 _ x2 Hok2 Hside2) as [Hin| ->];
      [by rewrite Hcols|by eapply iloc_elem|left; eauto|by right].
Qed.

Lemma cell_records_swap self df1 df2 r c :
  sides_swapped <$> cell_records self df2 df1 r c
  = sides <$> cell_records self df1 df2 r c.
Proof.
  unfold cell_records.
  destruct (iloc df1 r c.1) as [x1|], (iloc df2 r c.1) as [x2|]; try done.
  unfold record_of. cbv zeta.
  destruct (decide (preprocess self (str x1) = preprocess self (str x2)))
    as [Heq|Hne].
  - by rewrite decide_True.
  - rewrite decide_False by (intros Heq; by apply Hne). done.
Qed.

Lemma grid_records_swap self n1 n2 :
  columns n2 = columns n1 → len n2 = len n1 →
  sides_swapped <$> grid_records self n2 n1
  = sides <$> grid_records self n1 n2.
Proof.
  intros Hcols Hlen. unfold grid_records. rewrite Hlen.
  apply fmap_bind_ext. intros r _. unfold row_records. rewrite Hcols.
  apply fmap_bind_ext. intros c _. apply cell_records_swap.
Qed.

(** X28. Comparing in the other direction gives the same numbers of
    cells, different cells and identical cells and the same similarity,
    and the same records with the two sides exchanged. *)
Theorem compare_files_swap (self : CSVComparator) (base other : pystr)
    (df1 df2 : DataFrame) :
  readable base df1 → readable other df2 →
  ∃ r r',
    compare_files self base other = Some r
    ∧ compare_files self other base = Some r'
    ∧ total_cells r' = total_cells r
    ∧ different_cells r' = different_cells r
    ∧ identical_cells r' = identical_cells r
    ∧ similarity r' = similarity r
    ∧ sides_swapped <$> cell_differences r' = sides <$> cell_differences r.
Proof.
  intros Hb Ht.
  destruct (compare_files_result self base other df1 df2 Hb Ht)
    as (n1 & n2 & s1 & e1 & s2 & e2 & Hn & Hal & _ & _ & _ & _ & Hres).
  destruct (compare_files_result self other base df2 df1 Ht Hb)
    as (m1 & m2 & s1' & e1' & s2' & e2' & Hm & _ & _ & _ & _ & _ & Hres').
  pose proof (normalize_swap df1 df2) as Hsw.
  rewrite Hn, Hm in Hsw. cbn in Hsw. injection Hsw as -> ->.
  destruct Hal as (Hcols & _ & _ & (Hsh1 & _) & (Hsh2 & _)).
  assert (len n2 = len n1) as Hlen.
  { unfold shape in Hsh1, Hsh2. unfold len. congruence. }
  cbv zeta in Hres, Hres'. eexists _, _.
  split; [exact Hres|]. split; [exact Hres'|].
  cbn [total_cells different_cells identical_cells similarity
       cell_differences].
  pose proof (grid_records_swap self n1 n2 Hcols Hlen) as Hrec.
  assert (length (grid_records self n2 n1)
          = length (grid_records self n1 n2)) as Hcount.
  { by rewrite <- (length_fmap sides_swapped), Hrec, length_fmap. }
  rewrite Hcols, Hlen, Hcount. by split_and!.
Qed.

End ResultMore.

Lemma cell_differences_values_witness :
  ∃ r, compare_files (RT:=ascii_runtime) (SO:=elements_order)
         (FS:=sample_files) trimming (lit "base.csv") (lit "target.csv")
       = Some r
    ∧ Forall (λ d,
        (∃ x, x ∈ cells sample_base ∧ original d = str x) ∨ original d = [])
        (cell_differences r).
Proof.
  destruct (cell_differences_values (RT:=ascii_runtime) (SO:=elements_order)
              (FS:=sample_files) trimming (lit "base.csv") (lit "target.csv")
              sample_base sample_target
              sample_base_readable sample_target_readable)
    as (r & Hr & Hall).
  exists r. split; [exact Hr|].
  eapply Forall_impl; [exact Hall|]. intros d [Ho _]. exact Ho.
Defined.

Lemma compare_files_swap_witness :
  ∃ r r',
    compare_files (RT:=ascii_runtime) (SO:=elements_order)
      (FS:=sample_files) trimming (lit "base.csv") (lit "target.csv") = Some r
    ∧ compare_files (RT:=ascii_runtime) (SO:=elements_order)
        (FS:=sample_files) trimming (lit "target.csv") (lit "base.csv")
      = Some r'
    ∧ similarity r' = similarity r.
Proof.
  destruct (compare_files_swap (RT:=ascii_runtime) (SO:=elements_order)
              (FS:=sample_files) trimming (lit "base.csv") (lit "target.csv")
              sample_base sample_target
              sample_base_readable sample_target_readable)
    as (r & r' & Hr & Hr' & _ & _ & _ & Hsim & _).
  exists r, r'. repeat split; assumption.
Defined.
